(** * SimpleChat: a shallow embedding of [src/app.js]

    The program is a browser page: a handful of click handlers that read
    and write [localStorage] through [JSON.parse] / [JSON.stringify], a
    SHA-256 password digest, and a renderer of the conversation between
    the logged-in user and the selected peer.

    - JavaScript strings are sequences of UTF-16 code units ([list N]).
    - [localStorage] is a finite map from keys to strings.
    - The platform functions the handlers call are modelled after their
      standards: [JSON.parse] and [JSON.stringify] (ECMA-404 / ECMA-262),
      [String.prototype.trim], [TextEncoder.encode], SHA-256 (FIPS 180-4),
      [Number.prototype.toString(16)], [String.prototype.padStart] and the
      stable [Array.prototype.sort].
    - Two platform functions are parameters of the development:
      [toLowerCase] (the Unicode case tables) and [Date_ms] (the time value
      of [new Date(s)], implementation-defined outside the ISO format).
    - The values of the input fields and of the recipient list are
      arguments of the handlers, any strings; so is the string [nowTs()]
      returns.
    - The register and login handlers await the digest; as the
      specification has it, one handler is in flight at a time, and a
      handler is one step of the page. *)

From Stdlib Require Import ZArith NArith List String Ascii Lia Bool Sorted Permutation.
From stdpp Require Import gmap strings list fin_maps.
Import ListNotations.

#[local] Set Warnings "-register-all".
Local Open Scope N_scope.

(** ** JavaScript strings *)

Abbreviation jsstring := (list N) (only parsing).

(** A literal of the source, as code units. *)
Definition js (s : string) : jsstring :=
  map N_of_ascii (list_ascii_of_string s).

Definition jsstring_eqb (a b : jsstring) : bool :=
  bool_decide (a = b).

(** [!s] on a string: only the empty string is falsy. *)
Definition is_empty (s : jsstring) : bool :=
  match s with [] => true | _ => false end.

(** ECMAScript WhiteSpace and LineTerminator code units, the set
    [String.prototype.trim] strips. *)
Definition is_js_space (c : N) : bool :=
  ((9 <=? c) && (c <=? 13)) || (c =? 32) || (c =? 160) || (c =? 5760)
  || ((8192 <=? c) && (c <=? 8202)) || (c =? 8232) || (c =? 8233)
  || (c =? 8239) || (c =? 8287) || (c =? 12288) || (c =? 65279).

Fixpoint trimStart (s : jsstring) : jsstring :=
  match s with
  | c :: r => if is_js_space c then trimStart r else s
  | [] => []
  end.

Definition trimEnd (s : jsstring) : jsstring :=
  rev (trimStart (rev s)).

Definition trim (s : jsstring) : jsstring :=
  trimEnd (trimStart s).

(** ** JSON values

    A number token is kept as its lexeme: the double it denotes is never
    computed.  An object keeps its members in the order written. *)

Inductive json : Type :=
| JNull
| JBool (b : bool)
| JNum (lexeme : jsstring)
| JStr (s : jsstring)
| JArr (items : list json)
| JObj (members : list (jsstring * json)).

(** *** JSON.parse *)

Definition is_json_ws (c : N) : bool :=
  (c =? 32) || (c =? 9) || (c =? 10) || (c =? 13).

Fixpoint skip_ws (s : jsstring) : jsstring :=
  match s with
  | c :: r => if is_json_ws c then skip_ws r else s
  | [] => []
  end.

Definition is_digit (c : N) : bool := (48 <=? c) && (c <=? 57).

Definition hexval (c : N) : option N :=
  if (48 <=? c) && (c <=? 57) then Some (c - 48)
  else if (97 <=? c) && (c <=? 102) then Some (c - 87)
  else if (65 <=? c) && (c <=? 70) then Some (c - 55)
  else None.

Definition hexval4 (a b c d : N) : option N :=
  match hexval a, hexval b, hexval c, hexval d with
  | Some x, Some y, Some z, Some w => Some (((x * 16 + y) * 16 + z) * 16 + w)
  | _, _, _, _ => None
  end.

(** The unit a one-letter escape stands for: quote, backslash, slash,
    b, f, n, r, t. *)
Definition simple_escape (e : N) : option N :=
  if e =? 34 then Some 34
  else if e =? 92 then Some 92
  else if e =? 47 then Some 47
  else if e =? 98 then Some 8
  else if e =? 102 then Some 12
  else if e =? 110 then Some 10
  else if e =? 114 then Some 13
  else if e =? 116 then Some 9
  else None.

Definition cons_fst {A B} (x : A) (r : option (list A * B)) : option (list A * B) :=
  match r with
  | Some (l, b) => Some (x :: l, b)
  | None => None
  end.

(** The characters of a string token after its opening quote, up to and
    including the closing quote; returns the string and the rest. *)
Fixpoint parse_string_chars (s : jsstring) : option (jsstring * jsstring) :=
  match s with
  | [] => None
  | c :: r =>
      if c =? 34 then Some ([], r)
      else if c =? 92 then
        match r with
        | [] => None
        | e :: r1 =>
            if e =? 117 then
              match r1 with
              | h1 :: h2 :: h3 :: h4 :: r2 =>
                  match hexval4 h1 h2 h3 h4 with
                  | Some u => cons_fst u (parse_string_chars r2)
                  | None => None
                  end
              | _ => None
              end
            else
              match simple_escape e with
              | Some u => cons_fst u (parse_string_chars r1)
              | None => None
              end
        end
      else if c <? 32 then None
      else cons_fst c (parse_string_chars r)
  end.

Fixpoint span_digits (s : jsstring) : jsstring * jsstring :=
  match s with
  | c :: r =>
      if is_digit c then let '(ds, r') := span_digits r in (c :: ds, r')
      else ([], s)
  | [] => ([], [])
  end.

(** A number token: an optional minus, an integer part (a lone 0, or a
    non-zero digit and more digits), an optional fraction (a dot and one or
    more digits), an optional exponent (e or E, an optional sign, one or
    more digits). *)
Definition lex_int (s : jsstring) : option (jsstring * jsstring) :=
  match s with
  | c :: r =>
      if c =? 48 then Some ([48], r)
      else if is_digit c then let '(ds, r') := span_digits r in Some (c :: ds, r')
      else None
  | [] => None
  end.

Definition lex_frac (s : jsstring) : option (jsstring * jsstring) :=
  match s with
  | 46 :: r =>
      match span_digits r with
      | ([], _) => None
      | (ds, r') => Some (46 :: ds, r')
      end
  | _ => Some ([], s)
  end.

Definition lex_exp (s : jsstring) : option (jsstring * jsstring) :=
  match s with
  | c :: r =>
      if (c =? 101) || (c =? 69) then
        let '(sg, r0) :=
          match r with
          | d :: r' => if (d =? 43) || (d =? 45) then ([d], r') else ([], r)
          | [] => ([], r)
          end in
        match span_digits r0 with
        | ([], _) => None
        | (ds, r') => Some (c :: sg ++ ds, r')
        end
      else Some ([], s)
  | [] => Some ([], s)
  end.

Definition lex_number (s : jsstring) : option (jsstring * jsstring) :=
  let '(sg, s0) := match s with 45 :: r => ([45], r) | _ => ([], s) end in
  match lex_int s0 with
  | Some (i, s1) =>
      match lex_frac s1 with
      | Some (f, s2) =>
          match lex_exp s2 with
          | Some (e, s3) => Some (sg ++ i ++ f ++ e, s3)
          | None => None
          end
      | None => None
      end
  | None => None
  end.

Fixpoint strip_prefix (p s : jsstring) : option jsstring :=
  match p, s with
  | [], _ => Some s
  | a :: p', b :: s' => if a =? b then strip_prefix p' s' else None
  | _ :: _, [] => None
  end.

(** [s] without its first unit when that is [c]. *)
Definition starts_with (c : N) (s : jsstring) : option jsstring :=
  match s with
  | c' :: r => if c' =? c then Some r else None
  | [] => None
  end.

(** The recursive descent, with one unit of fuel per value and per
    element: [JSON_parse] below supplies more than the text can use. *)
Fixpoint parse_value (fuel : nat) (s : jsstring) : option (json * jsstring) :=
  match fuel with
  | O => None
  | S f =>
      match skip_ws s with
      | [] => None
      | c :: r =>
          if c =? 34 then
            match parse_string_chars r with
            | Some (str, r') => Some (JStr str, r')
            | None => None
            end
          else if c =? 91 then
            match starts_with 93 (skip_ws r) with
            | Some r' => Some (JArr [], r')
            | None =>
                match parse_elements f r with
                | Some (vs, r') => Some (JArr vs, r')
                | None => None
                end
            end
          else if c =? 123 then
            match starts_with 125 (skip_ws r) with
            | Some r' => Some (JObj [], r')
            | None =>
                match parse_members f r with
                | Some (ms, r') => Some (JObj ms, r')
                | None => None
                end
            end
          else if c =? 110 then
            match strip_prefix [117; 108; 108] r with
            | Some r' => Some (JNull, r')
            | None => None
            end
          else if c =? 116 then
            match strip_prefix [114; 117; 101] r with
            | Some r' => Some (JBool true, r')
            | None => None
            end
          else if c =? 102 then
            match strip_prefix [97; 108; 115; 101] r with
            | Some r' => Some (JBool false, r')
            | None => None
            end
          else
            match lex_number (c :: r) with
            | Some (lx, r') => Some (JNum lx, r')
            | None => None
            end
      end
  end
with parse_elements (fuel : nat) (s : jsstring) : option (list json * jsstring) :=
  match fuel with
  | O => None
  | S f =>
      match parse_value f s with
      | Some (v, r) =>
          match skip_ws r with
          | c :: r' =>
              if c =? 44 then cons_fst v (parse_elements f r')
              else if c =? 93 then Some ([v], r')
              else None
          | [] => None
          end
      | None => None
      end
  end
with parse_members (fuel : nat) (s : jsstring)
  : option (list (jsstring * json) * jsstring) :=
  match fuel with
  | O => None
  | S f =>
      match starts_with 34 (skip_ws s) with
      | Some r =>
          match parse_string_chars r with
          | Some (k, r1) =>
              match starts_with 58 (skip_ws r1) with
              | Some r2 =>
                  match parse_value f r2 with
                  | Some (v, r3) =>
                      match skip_ws r3 with
                      | c :: r4 =>
                          if c =? 44 then cons_fst (k, v) (parse_members f r4)
                          else if c =? 125 then Some ([(k, v)], r4)
                          else None
                      | [] => None
                      end
                  | None => None
                  end
              | None => None
              end
          | None => None
          end
      | None => None
      end
  end.

(** [JSON.parse(text)]: [None] stands for the SyntaxError it throws. *)
Definition JSON_parse (s : jsstring) : option json :=
  match parse_value (S (length s)) s with
  | Some (v, r) =>
      match skip_ws r with
      | [] => Some v
      | _ => None
      end
  | None => None
  end.

(** *** JSON.stringify *)

(** Lowercase hexadecimal digit of a value below 16. *)
Definition hexdigit (d : N) : N :=
  if d <? 10 then 48 + d else 87 + d.

Definition unicode_escape (c : N) : jsstring :=
  [92; 117; hexdigit (c / 4096 mod 16); hexdigit (c / 256 mod 16);
   hexdigit (c / 16 mod 16); hexdigit (c mod 16)].

Definition is_high_surrogate (c : N) : bool := (55296 <=? c) && (c <=? 56319).
Definition is_low_surrogate (c : N) : bool := (56320 <=? c) && (c <=? 57343).

(** QuoteJSONString on one code unit that is not a surrogate. *)
Definition escape_unit (c : N) : jsstring :=
  if c =? 8 then [92; 98]
  else if c =? 9 then [92; 116]
  else if c =? 10 then [92; 110]
  else if c =? 12 then [92; 102]
  else if c =? 13 then [92; 114]
  else if c =? 34 then [92; 34]
  else if c =? 92 then [92; 92]
  else if c <? 32 then unicode_escape c
  else [c].

(** A surrogate pair is written as it is, a lone surrogate escaped. *)
Fixpoint quote_body (s : jsstring) : jsstring :=
  match s with
  | [] => []
  | c :: r =>
      if is_high_surrogate c then
        match r with
        | d :: r' =>
            if is_low_surrogate d then c :: d :: quote_body r'
            else unicode_escape c ++ quote_body r
        | [] => unicode_escape c
        end
      else if is_low_surrogate c then unicode_escape c ++ quote_body r
      else escape_unit c ++ quote_body r
  end.

Definition JSON_quote (s : jsstring) : jsstring :=
  34 :: quote_body s ++ [34].

(** [JSON.stringify(v)] without indentation.  A number is written back as
    its lexeme (an engine prints the double it denotes); the records of
    this program hold strings only. *)
Fixpoint JSON_stringify (v : json) : jsstring :=
  match v with
  | JNull => [110; 117; 108; 108]
  | JBool true => [116; 114; 117; 101]
  | JBool false => [102; 97; 108; 115; 101]
  | JNum lx => lx
  | JStr s => JSON_quote s
  | JArr [] => [91; 93]
  | JArr (x :: xs) =>
      91 :: JSON_stringify x ++
      (fix more (l : list json) : jsstring :=
         match l with
         | [] => [93]
         | y :: ys => 44 :: JSON_stringify y ++ more ys
         end) xs
  | JObj [] => [123; 125]
  | JObj ((k, x) :: ms) =>
      123 :: JSON_quote k ++ 58 :: JSON_stringify x ++
      (fix more (l : list (jsstring * json)) : jsstring :=
         match l with
         | [] => [125]
         | (k', y) :: ys => 44 :: JSON_quote k' ++ 58 :: JSON_stringify y ++ more ys
         end) ms
  end.

Definition elements_tail : list json -> jsstring :=
  fix more (l : list json) : jsstring :=
    match l with
    | [] => [93]
    | y :: ys => 44 :: JSON_stringify y ++ more ys
    end.

Definition members_tail : list (jsstring * json) -> jsstring :=
  fix more (l : list (jsstring * json)) : jsstring :=
    match l with
    | [] => [125]
    | (k', y) :: ys => 44 :: JSON_quote k' ++ 58 :: JSON_stringify y ++ more ys
    end.

(** A value without number tokens. *)
Fixpoint plain (v : json) : Prop :=
  match v with
  | JNum _ => False
  | JArr xs =>
      (fix all (l : list json) : Prop :=
         match l with [] => True | y :: ys => plain y /\ all ys end) xs
  | JObj ms =>
      (fix all (l : list (jsstring * json)) : Prop :=
         match l with [] => True | (_, y) :: ys => plain y /\ all ys end) ms
  | _ => True
  end.

(** ** The password digest *)

(** *** TextEncoder.encode: UTF-8 of the code points of the string, a lone
    surrogate being replaced by U+FFFD *)

Definition utf8_of_code_point (c : N) : list N :=
  if c <? 128 then [c]
  else if c <? 2048 then [N.lor 192 (N.shiftr c 6); N.lor 128 (N.land c 63)]
  else if c <? 65536 then
    [N.lor 224 (N.shiftr c 12); N.lor 128 (N.land (N.shiftr c 6) 63);
     N.lor 128 (N.land c 63)]
  else
    [N.lor 240 (N.shiftr c 18); N.lor 128 (N.land (N.shiftr c 12) 63);
     N.lor 128 (N.land (N.shiftr c 6) 63); N.lor 128 (N.land c 63)].

Fixpoint TextEncoder_encode (s : jsstring) : list N :=
  match s with
  | [] => []
  | c :: r =>
      if is_high_surrogate c then
        match r with
        | d :: r' =>
            if is_low_surrogate d then
              utf8_of_code_point (65536 + (c - 55296) * 1024 + (d - 56320))
                ++ TextEncoder_encode r'
            else [239; 191; 189] ++ TextEncoder_encode r
        | [] => [239; 191; 189]
        end
      else if is_low_surrogate c then [239; 191; 189] ++ TextEncoder_encode r
      else utf8_of_code_point c ++ TextEncoder_encode r
  end.

(** *** SHA-256 (FIPS 180-4) on 32-bit words held in [N] *)

Module SHA256.

Definition w32 (x : N) : N := x mod 4294967296.
Definition add32 (a b : N) : N := w32 (a + b).
Definition not32 (x : N) : N := N.lxor x 4294967295.
Definition rotr (n x : N) : N :=
  N.lor (N.shiftr x n) (w32 (N.shiftl x (32 - n))).

Definition Ch (x y z : N) : N := N.lxor (N.land x y) (N.land (not32 x) z).
Definition Maj (x y z : N) : N :=
  N.lxor (N.lxor (N.land x y) (N.land x z)) (N.land y z).
Definition Sigma0 (x : N) : N := N.lxor (N.lxor (rotr 2 x) (rotr 13 x)) (rotr 22 x).
Definition Sigma1 (x : N) : N := N.lxor (N.lxor (rotr 6 x) (rotr 11 x)) (rotr 25 x).
Definition sigma0 (x : N) : N := N.lxor (N.lxor (rotr 7 x) (rotr 18 x)) (N.shiftr x 3).
Definition sigma1 (x : N) : N := N.lxor (N.lxor (rotr 17 x) (rotr 19 x)) (N.shiftr x 10).

(** The first 64 primes. *)
Definition primes : list N :=
  [2; 3; 5; 7; 11; 13; 17; 19; 23; 29; 31; 37; 41; 43; 47; 53; 59; 61; 67; 71;
   73; 79; 83; 89; 97; 101; 103; 107; 109; 113; 127; 131; 137; 139; 149; 151;
   157; 163; 167; 173; 179; 181; 191; 193; 197; 199; 211; 223; 227; 229; 233;
   239; 241; 251; 257; 263; 269; 271; 277; 281; 283; 293; 307; 311].

(** The integer cube root, found bit by bit from bit [bits - 1] down. *)
Fixpoint cube_root_from (bits : nat) (n r : N) : N :=
  match bits with
  | O => r
  | S b =>
      let r' := r + 2 ^ N.of_nat b in
      if r' * r' * r' <=? n then cube_root_from b n r' else cube_root_from b n r
  end.

(** The round constants: the first 32 bits of the fractional parts of the
    cube roots of the first 64 primes. *)
Definition K : list N :=
  Eval vm_compute in map (fun p => w32 (cube_root_from 36 (p * 2 ^ 96) 0)) primes.

(** The eight working variables, and the hash value between blocks. *)
Record regs : Type := Regs { ra : N; rb : N; rc : N; rd : N; re : N; rf : N; rg : N; rh : N }.

(** The first 32 bits of the fractional part of a square root. *)
Definition sqrt_frac32 (p : N) : N := w32 (N.sqrt (p * 2 ^ 64)).

(** The initial hash value, from the square roots of the first 8 primes. *)
Definition H0 : regs :=
  Eval vm_compute in
    Regs (sqrt_frac32 2) (sqrt_frac32 3) (sqrt_frac32 5) (sqrt_frac32 7)
         (sqrt_frac32 11) (sqrt_frac32 13) (sqrt_frac32 17) (sqrt_frac32 19).

Definition be_bytes4 (w : N) : list N :=
  [N.shiftr w 24 mod 256; N.shiftr w 16 mod 256; N.shiftr w 8 mod 256; w mod 256].

Definition be_bytes8 (w : N) : list N :=
  be_bytes4 (N.shiftr w 32) ++ be_bytes4 (w mod 4294967296).

(** The message, a 1 bit, zeros up to 56 mod 64, the bit length on 8 bytes. *)
Definition pad (msg : list N) : list N :=
  let len := N.of_nat (length msg) in
  msg ++ [128]
      ++ repeat 0 (N.to_nat ((64 - (len + 9) mod 64) mod 64))
      ++ be_bytes8 (8 * len).

Fixpoint words_of (fuel : nat) (bs : list N) : list N :=
  match fuel, bs with
  | S f, b0 :: b1 :: b2 :: b3 :: r =>
      (((b0 * 256 + b1) * 256 + b2) * 256 + b3) :: words_of f r
  | _, _ => []
  end.

Definition nth_word (l : list N) (i : nat) : N := nth i l 0.

(** The message schedule: [n] more words after the [length w] first. *)
Fixpoint schedule (n : nat) (w : list N) : list N :=
  match n with
  | O => w
  | S n' =>
      let t := length w in
      let x := add32 (add32 (sigma1 (nth_word w (t - 2))) (nth_word w (t - 7)))
                     (add32 (sigma0 (nth_word w (t - 15))) (nth_word w (t - 16))) in
      schedule n' (w ++ [x])
  end.

Definition round (s : regs) (kw : N * N) : regs :=
  let '(k, w) := kw in
  let t1 := add32 (add32 (add32 (rh s) (Sigma1 (re s))) (Ch (re s) (rf s) (rg s)))
                  (add32 k w) in
  let t2 := add32 (Sigma0 (ra s)) (Maj (ra s) (rb s) (rc s)) in
  Regs (add32 t1 t2) (ra s) (rb s) (rc s) (add32 (rd s) t1) (re s) (rf s) (rg s).

Definition compress (h : regs) (block : list N) : regs :=
  let w := schedule 48 (words_of 16 block) in
  let s := fold_left round (combine K w) h in
  Regs (add32 (ra h) (ra s)) (add32 (rb h) (rb s)) (add32 (rc h) (rc s))
       (add32 (rd h) (rd s)) (add32 (re h) (re s)) (add32 (rf h) (rf s))
       (add32 (rg h) (rg s)) (add32 (rh h) (rh s)).

Fixpoint blocks (fuel : nat) (h : regs) (bs : list N) : regs :=
  match fuel, bs with
  | S f, _ :: _ => blocks f (compress h (firstn 64 bs)) (skipn 64 bs)
  | _, _ => h
  end.

Definition digest_bytes (h : regs) : list N :=
  be_bytes4 (ra h) ++ be_bytes4 (rb h) ++ be_bytes4 (rc h) ++ be_bytes4 (rd h)
    ++ be_bytes4 (re h) ++ be_bytes4 (rf h) ++ be_bytes4 (rg h) ++ be_bytes4 (rh h).

(** [crypto.subtle.digest('SHA-256', data)] as the bytes of the buffer. *)
Definition digest (msg : list N) : list N :=
  let p := pad msg in
  digest_bytes (blocks (length p) H0 p).

End SHA256.

(** *** Number.prototype.toString(16) and String.prototype.padStart *)

Fixpoint digits16 (fuel : nat) (n : N) : jsstring :=
  match fuel with
  | O => []
  | S f =>
      if n <? 16 then [hexdigit n]
      else digits16 f (n / 16) ++ [hexdigit (n mod 16)]
  end.

(** [n.toString(16)] for a non-negative integer [n]. *)
Definition toString16 (n : N) : jsstring :=
  digits16 (S (N.to_nat (N.log2 n))) n.

(** [s.padStart(len, fill)] for a one-unit filler. *)
Definition padStart (len : nat) (fill : N) (s : jsstring) : jsstring :=
  repeat fill (len - length s) ++ s.

(** [hashPassword], lines 49-55: the awaited promise is its value. *)
Definition hashPassword (password : jsstring) : jsstring :=
  let data := TextEncoder_encode password in
  let hashArray := SHA256.digest data in
  concat (map (fun b => padStart 2 48 (toString16 b)) hashArray).

(** ** Storage helpers, lines 6-46 *)

Abbreviation storage := (gmap string (list N)) (only parsing).

Definition getItem (ls : storage) (k : string) : option jsstring := ls !! k.
Definition setItem (k : string) (v : jsstring) (ls : storage) : storage := <[k := v]> ls.
Definition removeItem (k : string) (ls : storage) : storage := delete k ls.

Definition LS_USERS_KEY : string := "simplechat_users".
Definition LS_MSGS_KEY : string := "simplechat_messages".
Definition LS_CURRENT_KEY : string := "simplechat_currentUser".

(** ToBoolean.  A number is falsy when it is zero, read off the digits of
    its mantissa (a literal so small that it rounds to zero is not
    recognised; the program writes no numbers). *)
Fixpoint zero_mantissa (lx : jsstring) : bool :=
  match lx with
  | [] => true
  | c :: r =>
      if (c =? 101) || (c =? 69) then true
      else ((c =? 48) || (c =? 45) || (c =? 46)) && zero_mantissa r
  end.

Definition ToBoolean (v : json) : bool :=
  match v with
  | JNull => false
  | JBool b => b
  | JNum lx => negb (zero_mantissa lx)
  | JStr s => negb (is_empty s)
  | JArr _ | JObj _ => true
  end.

Definition saveCurrentUser (u : json) (ls : storage) : storage :=
  if ToBoolean u then setItem LS_CURRENT_KEY (JSON_stringify u) ls
  else removeItem LS_CURRENT_KEY ls.

(** [JSON.parse(null)] parses the text [null]; a SyntaxError is caught. *)
Definition loadCurrentUser (ls : storage) : json :=
  let text := match getItem ls LS_CURRENT_KEY with
              | Some t => t
              | None => js "null"
              end in
  match JSON_parse text with
  | Some v => v
  | None => JNull
  end.

(** [x || d] where [x] is null or a string. *)
Definition or_else (x : option jsstring) (d : jsstring) : jsstring :=
  match x with
  | Some (c :: r) => c :: r
  | _ => d
  end.

Definition loadUsers (ls : storage) : json :=
  match JSON_parse (or_else (getItem ls LS_USERS_KEY) (js "[]")) with
  | Some v => v
  | None => JArr []
  end.

Definition loadMessages (ls : storage) : json :=
  match JSON_parse (or_else (getItem ls LS_MSGS_KEY) (js "[]")) with
  | Some v => v
  | None => JArr []
  end.

(** ** Records

    The objects the handlers build (lines 210, 243, 281), and the reading
    of a parsed value as such records.  A handler that meets a stored
    value of another shape is outside this model: it answers [None]. *)

Record user : Type := User {
  username : jsstring;
  passwordHash : jsstring;
  createdAt : jsstring
}.

Record message : Type := Message {
  from : jsstring;
  to : jsstring;
  text : jsstring;
  ts : jsstring
}.

Definition user_to_json (u : user) : json :=
  JObj [(js "username", JStr (username u));
        (js "passwordHash", JStr (passwordHash u));
        (js "createdAt", JStr (createdAt u))].

Definition message_to_json (m : message) : json :=
  JObj [(js "from", JStr (from m)); (js "to", JStr (to m));
        (js "text", JStr (text m)); (js "ts", JStr (ts m))].

(** [{ username: name }], line 243. *)
Definition session_to_json (name : jsstring) : json :=
  JObj [(js "username", JStr name)].

Definition as_user (v : json) : option user :=
  match v with
  | JObj [(k1, JStr u); (k2, JStr h); (k3, JStr c)] =>
      if jsstring_eqb k1 (js "username") && jsstring_eqb k2 (js "passwordHash")
         && jsstring_eqb k3 (js "createdAt")
      then Some (User u h c) else None
  | _ => None
  end.

Definition as_message (v : json) : option message :=
  match v with
  | JObj [(k1, JStr f); (k2, JStr t); (k3, JStr x); (k4, JStr d)] =>
      if jsstring_eqb k1 (js "from") && jsstring_eqb k2 (js "to")
         && jsstring_eqb k3 (js "text") && jsstring_eqb k4 (js "ts")
      then Some (Message f t x d) else None
  | _ => None
  end.

Definition as_session (v : json) : option jsstring :=
  match v with
  | JObj [(k, JStr u)] => if jsstring_eqb k (js "username") then Some u else None
  | _ => None
  end.

Fixpoint all_some {A B} (f : A -> option B) (l : list A) : option (list B) :=
  match l with
  | [] => Some []
  | x :: r =>
      match f x, all_some f r with
      | Some y, Some ys => Some (y :: ys)
      | _, _ => None
      end
  end.

Definition as_users (v : json) : option (list user) :=
  match v with
  | JArr l => all_some as_user l
  | _ => None
  end.

Definition as_messages (v : json) : option (list message) :=
  match v with
  | JArr l => all_some as_message l
  | _ => None
  end.

Definition saveUsers (users : list user) (ls : storage) : storage :=
  setItem LS_USERS_KEY (JSON_stringify (JArr (map user_to_json users))) ls.

Definition saveMessages (msgs : list message) (ls : storage) : storage :=
  setItem LS_MSGS_KEY (JSON_stringify (JArr (map message_to_json msgs))) ls.

(** ** The page *)

(** The globals of the script: the store, [currentUser] and
    [selectedPeer] (null or a string). *)
Record state : Type := State {
  localStorage : gmap string (list N);
  currentUser : json;
  selectedPeer : option jsstring
}.

(** What a handler reports, under the names of the error taxonomy; the
    text it shows is quoted at each use. *)
Inductive outcome : Type :=
| InvalidInput
| DuplicateUsername
| Registered
| UserNotFound
| WrongPassword
| LoggedIn
| LoggedOut
| NotLoggedIn
| NoRecipient
| SelfMessage
| SelfPeer
| EmptyText
| UnknownRecipient
| Sent
| PeerSelected
| PeerCleared
| Reloaded.

(** The clicks and changes the page reacts to, with the values of the
    input fields read by the handler and, where the handler calls
    [nowTs()], the string it returned. *)
Inductive event : Type :=
| ClickRegister (regUser regPass now : jsstring)
| ClickLogin (loginUser loginPass : jsstring)
| ClickLogout
| ClickSend (recipient messageInput now : jsstring)
| ClickUser (name : jsstring)
| ChangeRecipient (val : jsstring)
| Reload.

(** A fresh browser profile: the script finds an empty store. *)
Definition initial : state := State ∅ JNull None.

(** The page is loaded again, lines 83-84 and 312: the globals are
    initialised anew, the store is what it was. *)
Definition reload (s : state) : state :=
  State (localStorage s) (loadCurrentUser (localStorage s)) None.

Definition peer_set (p : option jsstring) : bool :=
  match p with
  | Some (_ :: _) => true
  | _ => false
  end.

Section Handlers.

(** [String.prototype.toLowerCase], and the time value of [new Date(s)]
    in milliseconds, [None] for an invalid date (NaN). *)
Variable toLowerCase : jsstring -> jsstring.
Variable Date_ms : jsstring -> option Z.

Definition same_name (a b : jsstring) : bool :=
  jsstring_eqb (toLowerCase a) (toLowerCase b).

(** The register handler, lines 192-220. *)
Definition btnRegister_click (regUser regPass now : jsstring) (s : state)
  : option (outcome * state) :=
  let name := trim regUser in
  let password := regPass in
  if is_empty name || is_empty password then Some (InvalidInput, s)
  else
    match as_users (loadUsers (localStorage s)) with
    | None => None
    | Some users =>
        if existsb (fun u => same_name (username u) name) users
        then Some (DuplicateUsername, s)
        else
          let hashed := hashPassword password in
          let users' := users ++ [User name hashed now] in
          Some (Registered,
                State (saveUsers users' (localStorage s))
                      (currentUser s) (selectedPeer s))
    end.

(** Lines 228-241 of the login handler: the lookup and the comparison of
    digests, giving the record found. *)
Definition authenticate (users : list user) (name password : jsstring)
  : outcome + user :=
  match find (fun u => same_name (username u) name) users with
  | None => inl UserNotFound
  | Some u =>
      let hashed := hashPassword password in
      if negb (jsstring_eqb hashed (passwordHash u)) then inl WrongPassword
      else inr u
  end.

(** The login handler, lines 222-256. *)
Definition btnLogin_click (loginUser loginPass : jsstring) (s : state)
  : option (outcome * state) :=
  let name := trim loginUser in
  let password := loginPass in
  if is_empty name || is_empty password then Some (InvalidInput, s)
  else
    match as_users (loadUsers (localStorage s)) with
    | None => None
    | Some users =>
        match authenticate users name password with
        | inl e => Some (e, s)
        | inr u =>
            let cu := session_to_json (username u) in
            Some (LoggedIn,
                  State (saveCurrentUser cu (localStorage s)) cu (selectedPeer s))
        end
    end.

(** The logout handler, lines 258-264. *)
Definition btnLogout_click (s : state) : option (outcome * state) :=
  Some (LoggedOut, State (saveCurrentUser JNull (localStorage s)) JNull None).

(** The send handler, lines 266-291. *)
Definition btnSend_click (recipient messageInput now : jsstring) (s : state)
  : option (outcome * state) :=
  let to_ := recipient in
  let text_ := trim messageInput in
  if negb (ToBoolean (currentUser s)) then Some (NotLoggedIn, s)
  else if is_empty to_ then Some (NoRecipient, s)
  else
    match as_session (currentUser s) with
    | None => None
    | Some me =>
        if jsstring_eqb to_ me then Some (SelfMessage, s)
        else if is_empty text_ then Some (EmptyText, s)
        else
          match as_users (loadUsers (localStorage s)) with
          | None => None
          | Some users =>
              if negb (existsb (fun u => jsstring_eqb (username u) to_) users)
              then Some (UnknownRecipient, s)
              else
                match as_messages (loadMessages (localStorage s)) with
                | None => None
                | Some msgs =>
                    let msgs' := msgs ++ [Message me to_ text_ now] in
                    Some (Sent,
                          State (saveMessages msgs' (localStorage s))
                                (currentUser s) (Some to_))
                end
          end
    end.

(** [selectPeer], lines 176-189. *)
Definition selectPeer (name : jsstring) (s : state) : option (outcome * state) :=
  if negb (ToBoolean (currentUser s)) then Some (NotLoggedIn, s)
  else
    match as_session (currentUser s) with
    | None => None
    | Some me =>
        if jsstring_eqb name me then Some (SelfPeer, s)
        else Some (PeerSelected, State (localStorage s) (currentUser s) (Some name))
    end.

(** The change handler of the recipient list, lines 300-309. *)
Definition recipientSelect_change (val : jsstring) (s : state)
  : option (outcome * state) :=
  if negb (is_empty val) then selectPeer val s
  else Some (PeerCleared, State (localStorage s) (currentUser s) None).

(** The comparator of line 148, [new Date(a.ts) - new Date(b.ts)]; the
    sort takes a NaN as +0. *)
Definition by_ts (a b : message) : Z :=
  match Date_ms (ts a), Date_ms (ts b) with
  | Some x, Some y => (x - y)%Z
  | _, _ => 0%Z
  end.

(** [Array.prototype.sort] is stable: it gives the one arrangement that
    is ordered by a consistent comparator and keeps equal elements in
    their order.  Insertion from the right computes it. *)
Fixpoint sort_insert {A} (cmp : A -> A -> Z) (x : A) (l : list A) : list A :=
  match l with
  | [] => [x]
  | y :: r => if (0 <? cmp x y)%Z then y :: sort_insert cmp x r else x :: l
  end.

Fixpoint Array_sort {A} (cmp : A -> A -> Z) (l : list A) : list A :=
  match l with
  | [] => []
  | x :: r => sort_insert cmp x (Array_sort cmp r)
  end.

(** The filter of line 147. *)
Definition between (me peer : jsstring) (m : message) : bool :=
  (jsstring_eqb (from m) me && jsstring_eqb (to m) peer)
  || (jsstring_eqb (from m) peer && jsstring_eqb (to m) me).

(** Lines 146-148: the messages [renderMessages] shows. *)
Definition conversation (msgs : list message) (me peer : jsstring) : list message :=
  Array_sort by_ts (List.filter (between me peer) msgs).

(** [renderMessages], lines 140-174: [Some None] is 'No conversation
    selected.', [Some (Some l)] the messages drawn, in order. *)
Definition renderMessages (s : state) : option (option (list message)) :=
  if negb (ToBoolean (currentUser s)) || negb (peer_set (selectedPeer s))
  then Some None
  else
    match as_messages (loadMessages (localStorage s)), as_session (currentUser s),
          selectedPeer s with
    | Some msgs, Some me, Some peer => Some (Some (conversation msgs me peer))
    | _, _, _ => None
    end.

Definition step (e : event) (s : state) : option (outcome * state) :=
  match e with
  | ClickRegister u p now => btnRegister_click u p now s
  | ClickLogin u p => btnLogin_click u p s
  | ClickLogout => btnLogout_click s
  | ClickSend r m now => btnSend_click r m now s
  | ClickUser n => selectPeer n s
  | ChangeRecipient v => recipientSelect_change v s
  | Reload => Some (Reloaded, reload s)
  end.

(** The states of the page after a history of events, each with what it
    reported, from a fresh profile.  A handler runs to its end before the
    next event is taken. *)
Inductive reachable : list (event * outcome) -> state -> Prop :=
| reach_initial : reachable [] initial
| reach_step h s e o s' :
    reachable h s -> step e s = Some (o, s') -> reachable (h ++ [(e, o)]) s'.

End Handlers.

(** ** A concrete platform, for running the handlers on examples *)

(** [toLowerCase] on code units below 256 (Basic Latin and the Latin-1
    Supplement): A-Z and the capital letters U+00C0-U+00DE, the
    multiplication sign apart, move up by 32. *)
Definition toLowerCase_latin1 (s : jsstring) : jsstring :=
  map (fun c =>
         if ((65 <=? c) && (c <=? 90))
            || ((192 <=? c) && (c <=? 222) && negb (c =? 215))
         then c + 32 else c) s.

Fixpoint decimal (acc : Z) (ds : jsstring) : option Z :=
  match ds with
  | [] => Some acc
  | c :: r => if is_digit c then decimal (acc * 10 + Z.of_N (c - 48)) r else None
  end.

Definition days_in_month (y m : Z) : Z :=
  if (m =? 2)%Z then
    if ((y mod 4 =? 0) && negb (y mod 100 =? 0) || (y mod 400 =? 0))%Z
    then 29%Z else 28%Z
  else if ((m =? 4) || (m =? 6) || (m =? 9) || (m =? 11))%Z then 30%Z
  else 31%Z.

(** Days from 1970-01-01 to the given day of the proleptic Gregorian
    calendar. *)
Definition days_from_civil (y m d : Z) : Z :=
  let y' := if (m <=? 2)%Z then (y - 1)%Z else y in
  let era := (y' / 400)%Z in
  let yoe := (y' - era * 400)%Z in
  let mp := if (2 <? m)%Z then (m - 3)%Z else (m + 9)%Z in
  let doy := ((153 * mp + 2) / 5 + d - 1)%Z in
  let doe := (yoe * 365 + yoe / 4 - yoe / 100 + doy)%Z in
  (era * 146097 + doe - 719468)%Z.

(** The time value of a string in the format of [toISOString],
    YYYY-MM-DDTHH:mm:ss.sssZ. *)
Definition Date_ms_iso (s : jsstring) : option Z :=
  match s with
  | [y1; y2; y3; y4; 45; m1; m2; 45; d1; d2; 84; h1; h2; 58; n1; n2; 58;
     s1; s2; 46; f1; f2; f3; 90] =>
      match decimal 0 [y1; y2; y3; y4], decimal 0 [m1; m2], decimal 0 [d1; d2],
            decimal 0 [h1; h2], decimal 0 [n1; n2], decimal 0 [s1; s2],
            decimal 0 [f1; f2; f3] with
      | Some y, Some m, Some d, Some h, Some n, Some sec, Some f =>
          if ((1 <=? m) && (m <=? 12) && (1 <=? d) && (d <=? days_in_month y m)
              && (h <=? 23) && (n <=? 59) && (sec <=? 59))%Z
          then Some ((((days_from_civil y m d * 24 + h) * 60 + n) * 60 + sec) * 1000 + f)%Z
          else None
      | _, _, _, _, _, _, _ => None
      end
  | _ => None
  end.



(** ** The store read as records *)

Definition directory (s : state) : option (list user) :=
  as_users (loadUsers (localStorage s)).

Definition message_log (s : state) : option (list message) :=
  as_messages (loadMessages (localStorage s)).

(** The record a successful registration creates, line 210. *)
Definition registration (eo : event * outcome) : list user :=
  match eo with
  | (ClickRegister u p now, Registered) => [User (trim u) (hashPassword p) now]
  | _ => []
  end.

(** The records created along a history, oldest first. *)
Definition registered (h : list (event * outcome)) : list user :=
  flat_map registration h.

(** ** Histories *)

Section Histories.

Variable toLowerCase : jsstring -> jsstring.

(** The events of a list taken in turn, with what each reported. *)
Fixpoint run (es : list event) (s : state)
  : option (list (event * outcome) * state) :=
  match es with
  | [] => Some ([], s)
  | e :: es' =>
      match step toLowerCase e s with
      | Some (o, s') =>
          match run es' s' with
          | Some (h, s'') => Some ((e, o) :: h, s'')
          | None => None
          end
      | None => None
      end
  end.

(** A session value is null or names a registered user. *)
Definition session_ok (users : list user) (v : json) : Prop :=
  v = JNull \/ exists u, In u users /\ v = session_to_json (username u).

(** What holds of the page after any history. *)
Record consistent (h : list (event * outcome)) (s : state) : Prop := {
  directory_registered : directory s = Some (registered h);
  names_distinct : NoDup (map (fun u => toLowerCase (username u)) (registered h));
  names_nonempty : Forall (fun u => username u <> []) (registered h);
  log_readable : exists msgs,
      message_log s = Some msgs /\ Forall (fun m => from m <> to m) msgs;
  current_ok : session_ok (registered h) (currentUser s);
  session_persisted : loadCurrentUser (localStorage s) = currentUser s
}.

End Histories.

(** ** Words of the specification *)

(** The pair of a message is the pair of the two users, in either
    direction. *)
Definition in_pair (a b : jsstring) (m : message) : Prop :=
  (from m = a /\ to m = b) \/ (from m = b /\ to m = a).

Section Times.

Variable Date_ms : jsstring -> option Z.

(** Both timestamps are dates, the first not after the second. *)
Definition time_le (a b : message) : Prop :=
  exists x y, Date_ms (ts a) = Some x /\ Date_ms (ts b) = Some y /\ (x <= y)%Z.

(** The messages sent at the instant [t]. *)
Definition at_time (t : Z) (m : message) : bool :=
  bool_decide (Date_ms (ts m) = Some t).

Definition dated (m : message) : Prop := is_Some (Date_ms (ts m)).

End Times.

(** A byte as two lowercase hexadecimal digits, the high one first. *)
Definition hex2 (b : N) : jsstring :=
  [hexdigit (b / 16); hexdigit (b mod 16)].

Definition is_lower_hex (c : N) : Prop :=
  48 <= c <= 57 \/ 97 <= c <= 102.

(** [P] on the naturals below [n], as code units. *)
Fixpoint all_below (n : nat) (P : N -> bool) : bool :=
  match n with
  | O => true
  | S k => P (N.of_nat k) && all_below k P
  end.

(** What the round trip through [JSON.stringify] and [parse_value] says
    of one value, with the fuel it needs. *)
Definition reads_back (v : json) : Prop :=
  forall f rest, (length (JSON_stringify v) <= f)%nat ->
    parse_value f (JSON_stringify v ++ rest) = Some (v, rest).

(** ** Sample data *)

Definition stamp1 : jsstring := js "2024-03-01T10:00:00.000Z".
Definition stamp2 : jsstring := js "2024-03-01T10:00:05.250Z".
Definition stamp3 : jsstring := js "2024-03-01T10:00:05.250Z".
Definition stamp4 : jsstring := js "2024-03-01T09:59:59.999Z".

(** The page and the history after a list of events on a fresh profile,
    with the concrete [toLowerCase]. *)
Definition after (es : list event) : state :=
  match run toLowerCase_latin1 es initial with
  | Some (_, s) => s
  | None => initial
  end.

Definition history_of (es : list event) : list (event * outcome) :=
  match run toLowerCase_latin1 es initial with
  | Some (h, _) => h
  | None => []
  end.

(** Bob registers; then Alice registers; then Alice logs in. *)
Definition bob_only : list event :=
  [ClickRegister (js "Bob") (js "pw") stamp1].

Definition bob_and_alice : list event :=
  bob_only ++ [ClickRegister (js " alice ") (js "secret") stamp2].

Definition alice_logged_in : list event :=
  bob_and_alice ++ [ClickLogin (js "ALICE") (js "secret")].

(** A stored log: Alice and Bob exchange four messages, two of them in
    the same millisecond and one stamped before the others; Carol writes
    to Bob in between. *)
Definition demo_log : list message :=
  [Message (js "alice") (js "Bob") (js "first") stamp2;
   Message (js "Bob") (js "alice") (js "second") stamp3;
   Message (js "carol") (js "Bob") (js "other") stamp1;
   Message (js "Bob") (js "alice") (js "early") stamp4;
   Message (js "alice") (js "Bob") (js "late") stamp1].

(** Alice, logged in, has written to Bob. *)
Definition alice_wrote : list event :=
  alice_logged_in ++ [ClickSend (js "Bob") (js " hello ") stamp3].

(** A store whose session slot holds text that is not JSON. *)
Definition broken_session : state :=
  State (setItem LS_CURRENT_KEY (js "{oops") ∅) JNull None.

(** ** Rendering, lines 87-174 *)

(** [s.replaceAll(pat, rep)] for a pattern of one code unit and a
    replacement without dollar sign. *)
Definition replaceAll (pat : N) (rep s : jsstring) : jsstring :=
  flat_map (fun c => if c =? pat then rep else [c]) s.

(** [escapeHtml], lines 132-138, on a string. *)
Definition escapeHtml (s : jsstring) : jsstring :=
  replaceAll 34 (js "&quot;")
    (replaceAll 62 (js "&gt;")
       (replaceAll 60 (js "&lt;")
          (replaceAll 38 (js "&amp;") s))).

(** The entity of a code unit: ampersand, less-than, greater-than and
    the double quote have one, any other unit stands for itself. *)
Definition entity (c : N) : jsstring :=
  if c =? 38 then js "&amp;"
  else if c =? 60 then js "&lt;"
  else if c =? 62 then js "&gt;"
  else if c =? 34 then js "&quot;"
  else [c].

Definition is_markup (c : N) : bool :=
  (c =? 38) || (c =? 60) || (c =? 62) || (c =? 34).

(** What [renderHeader], lines 113-130, writes: the text of the two
    headings, the markup of the status line, the display style of the
    logout button. *)
Record header : Type := Header {
  chatWith : jsstring;
  subtitle : jsstring;
  status : jsstring;
  logout_display : jsstring
}.

Definition renderHeader (s : state) : option header :=
  if negb (ToBoolean (currentUser s)) then
    Some (Header (js "Not logged in") (js "Select a user to chat with.")
                 (js "Not logged in") (js "none"))
  else
    match as_session (currentUser s) with
    | None => None
    | Some me =>
        let st := js "Logged in as <strong>" ++ escapeHtml me ++ js "</strong>" in
        if peer_set (selectedPeer s) then
          let peer := default [] (selectedPeer s) in
          Some (Header (js "Chat with " ++ peer)
                       (js "Messages between you and " ++ peer)
                       st (js "inline-block"))
        else
          Some (Header (js "Logged in: " ++ me)
                       (js "Select a user (left) or choose recipient below.")
                       st (js "inline-block"))
    end.

(** [renderUsers], lines 87-107: the texts of the list items, and the
    values of the options of the recipient list, the placeholder first. *)
Definition renderUsers (s : state) : option (list jsstring * list jsstring) :=
  match as_users (loadUsers (localStorage s)) with
  | None => None
  | Some users => Some (map username users, [] :: map username users)
  end.

(** Lines 158 and 167: the class a message is drawn with, and the markup
    of its body. *)
Definition message_class (me : jsstring) (m : message) : jsstring :=
  if jsstring_eqb (from m) me then js "me" else js "them".

Definition message_body (m : message) : jsstring :=
  escapeHtml (text m).

(** ** Outcomes and keys *)

(** The answers with which a handler gives up. *)
Definition is_failure (o : outcome) : bool :=
  match o with
  | InvalidInput | DuplicateUsername | UserNotFound | WrongPassword
  | NotLoggedIn | NoRecipient | SelfMessage | SelfPeer | EmptyText
  | UnknownRecipient => true
  | _ => false
  end.

(** The keys of the store the handler of an event may write. *)
Definition writes (e : event) : list string :=
  match e with
  | ClickRegister _ _ _ => [LS_USERS_KEY]
  | ClickLogin _ _ | ClickLogout => [LS_CURRENT_KEY]
  | ClickSend _ _ _ => [LS_MSGS_KEY]
  | ClickUser _ | ChangeRecipient _ | Reload => []
  end.

(** A directory record as registration writes it: a name that is not
    empty and has no white space at either end, a digest of 64 lowercase
    hexadecimal digits. *)
Definition well_formed_user (u : user) : Prop :=
  username u <> [] /\ trim (username u) = username u
  /\ length (passwordHash u) = 64%nat /\ Forall is_lower_hex (passwordHash u).

(** More sample histories: with Alice logged in, Bob is selected and
    then logs in himself; after Alice wrote, Bob logs in and selects
    Alice. *)
Definition bob_selects_himself : list event :=
  alice_logged_in ++ [ClickUser (js "Bob"); ClickLogin (js "bob") (js "pw")].

Definition bob_reads : list event :=
  [ClickLogout; ClickLogin (js "BOB") (js "pw"); ClickUser (js "alice")].

(** The history and the page after more events on a page. *)
Definition continue (es : list event) (s : state) : list (event * outcome) * state :=
  match run toLowerCase_latin1 es s with
  | Some r => r
  | None => ([], s)
  end.


(** ** UTF-8, in the words of the Unicode standard *)

(** A JavaScript string is a sequence of 16-bit code units. *)
Definition code_unit (c : N) : Prop := c < 65536.

(** The scalar values a string of UTF-16 code units denotes.  A unit
    from D800 to DBFF followed by one from DC00 to DFFF is one value
    above FFFF, made of the ten low bits of each; any other unit from
    D800 to DFFF is ill-formed and reads as U+FFFD. *)
Fixpoint scalar_values (s : jsstring) : list N :=
  match s with
  | [] => []
  | c :: r =>
      if c / 1024 =? 54 then
        match r with
        | d :: r' =>
            if d / 1024 =? 55
            then (65536 + (c mod 1024) * 1024 + d mod 1024) :: scalar_values r'
            else 65533 :: scalar_values r
        | [] => [65533]
        end
      else if c / 1024 =? 55 then 65533 :: scalar_values r
      else c :: scalar_values r
  end.

(** The bytes of one scalar value (Unicode, table 3-6; RFC 3629): seven
    bits on one byte, eleven on two, sixteen on three, twenty-one on
    four, six bits to each continuation byte. *)
Definition utf8_bytes (v : N) : list N :=
  if v <? 128 then [v]
  else if v <? 2048 then [192 + v / 64; 128 + v mod 64]
  else if v <? 65536 then [224 + v / 4096; 128 + (v / 64) mod 64; 128 + v mod 64]
  else [240 + v / 262144; 128 + (v / 4096) mod 64; 128 + (v / 64) mod 64;
        128 + v mod 64].

Definition UTF8 (s : jsstring) : list N := flat_map utf8_bytes (scalar_values s).

(** A decoder of UTF-8: the scalar values of a sequence of bytes, when
    every lead byte is followed by the continuation bytes it announces. *)
Definition continuation (b : N) : bool := (128 <=? b) && (b <? 192).

Fixpoint utf8_decode (bs : list N) : option (list N) :=
  match bs with
  | [] => Some []
  | b0 :: r0 =>
      if b0 <? 128 then option_map (cons b0) (utf8_decode r0)
      else if b0 <? 192 then None
      else
        match r0 with
        | [] => None
        | b1 :: r1 =>
            if negb (continuation b1) then None
            else if b0 <? 224 then
              option_map (cons ((b0 - 192) * 64 + (b1 - 128))) (utf8_decode r1)
            else
              match r1 with
              | [] => None
              | b2 :: r2 =>
                  if negb (continuation b2) then None
                  else if b0 <? 240 then
                    option_map
                      (cons ((b0 - 224) * 4096 + (b1 - 128) * 64 + (b2 - 128)))
                      (utf8_decode r2)
                  else
                    match r2 with
                    | [] => None
                    | b3 :: r3 =>
                        if negb (continuation b3) then None
                        else if b0 <? 248 then
                          option_map
                            (cons ((b0 - 240) * 262144 + (b1 - 128) * 4096
                                   + (b2 - 128) * 64 + (b3 - 128)))
                            (utf8_decode r3)
                        else None
                    end
              end
        end
  end.

(** ** More sample data *)

(** A password of accented, currency and astral characters: é, the euro
    sign and U+1F600, the last one a surrogate pair. *)
Definition accented_password : jsstring := [233; 8364; 55357; 56832].

(** Bob registers with a password of one lone high surrogate. *)
Definition lone_surrogate : jsstring := [55296].
Definition replacement_character : jsstring := [65533].

Definition bob_lone_surrogate : list event :=
  [ClickRegister (js "Bob") lone_surrogate stamp1].

(** A profile whose session slot holds the text [t], before the page is
    loaded. *)
Definition stored_session (t : jsstring) : state :=
  State (setItem LS_CURRENT_KEY t ∅) JNull None.
(** * Properties *)

(** ** JSON: what [JSON.stringify] writes, [JSON.parse] reads back *)

Lemma jsstring_eqb_refl (a : jsstring) : jsstring_eqb a a = true.
Proof. unfold jsstring_eqb. apply bool_decide_eq_true_2. reflexivity. Qed.

Lemma jsstring_eqb_eq (a b : jsstring) : jsstring_eqb a b = true <-> a = b.
Proof. unfold jsstring_eqb. apply bool_decide_eq_true. Qed.

Lemma jsstring_eqb_neq (a b : jsstring) : jsstring_eqb a b = false <-> a <> b.
Proof. unfold jsstring_eqb. apply bool_decide_eq_false. Qed.

Lemma hexval_hexdigit d : d < 16 -> hexval (hexdigit d) = Some d.
Proof.
  intros H.
  assert (d = 0 \/ d = 1 \/ d = 2 \/ d = 3 \/ d = 4 \/ d = 5 \/ d = 6 \/ d = 7
          \/ d = 8 \/ d = 9 \/ d = 10 \/ d = 11 \/ d = 12 \/ d = 13 \/ d = 14
          \/ d = 15) as Hd by lia.
  repeat (destruct Hd as [-> | Hd]; [reflexivity |]).
  subst d. reflexivity.
Qed.

Lemma hex4_value c :
  c < 65536 ->
  ((c / 4096 mod 16 * 16 + c / 256 mod 16) * 16 + c / 16 mod 16) * 16 + c mod 16 = c.
Proof.
  intros H.
  pose proof (N.div_mod c 16 ltac:(lia)).
  pose proof (N.div_mod (c / 16) 16 ltac:(lia)).
  pose proof (N.div_mod (c / 256) 16 ltac:(lia)).
  pose proof (N.mod_lt c 16 ltac:(lia)).
  pose proof (N.mod_lt (c / 16) 16 ltac:(lia)).
  pose proof (N.mod_lt (c / 256) 16 ltac:(lia)).
  replace (c / 256) with (c / 16 / 16) in *
    by (rewrite N.Div0.div_div; reflexivity).
  replace (c / 4096) with (c / 16 / 16 / 16) in *
    by (rewrite !N.Div0.div_div; reflexivity).
  assert (c / 16 / 16 / 16 < 16)
    by (do 3 apply N.Div0.div_lt_upper_bound; lia).
  rewrite (N.mod_small (c / 16 / 16 / 16)) by lia.
  lia.
Qed.

Lemma parse_raw c t :
  32 <= c -> c <> 34 -> c <> 92 ->
  parse_string_chars (c :: t) = cons_fst c (parse_string_chars t).
Proof.
  intros H32 H34 H92. cbn [parse_string_chars].
  apply N.eqb_neq in H34, H92. rewrite H34, H92.
  destruct (c <? 32) eqn:E; [apply N.ltb_lt in E; lia | reflexivity].
Qed.

Lemma parse_unicode_escape c t :
  c < 65536 ->
  parse_string_chars (unicode_escape c ++ t) = cons_fst c (parse_string_chars t).
Proof.
  intros H. unfold unicode_escape. cbn [app parse_string_chars].
  change (92 =? 34) with false. change (92 =? 92) with true.
  change (117 =? 117) with true. cbv iota.
  unfold hexval4.
  rewrite !hexval_hexdigit by (apply N.mod_lt; lia).
  rewrite hex4_value by assumption. reflexivity.
Qed.

Lemma parse_escape_unit c t :
  c < 55296 \/ 57343 < c ->
  parse_string_chars (escape_unit c ++ t) = cons_fst c (parse_string_chars t).
Proof.
  intros H. unfold escape_unit.
  destruct (c =? 8) eqn:E1; [apply N.eqb_eq in E1; subst; reflexivity |].
  destruct (c =? 9) eqn:E2; [apply N.eqb_eq in E2; subst; reflexivity |].
  destruct (c =? 10) eqn:E3; [apply N.eqb_eq in E3; subst; reflexivity |].
  destruct (c =? 12) eqn:E4; [apply N.eqb_eq in E4; subst; reflexivity |].
  destruct (c =? 13) eqn:E5; [apply N.eqb_eq in E5; subst; reflexivity |].
  destruct (c =? 34) eqn:E6; [apply N.eqb_eq in E6; subst; reflexivity |].
  destruct (c =? 92) eqn:E7; [apply N.eqb_eq in E7; subst; reflexivity |].
  apply N.eqb_neq in E6, E7.
  destruct (c <? 32) eqn:E.
  - apply N.ltb_lt in E. apply parse_unicode_escape. lia.
  - apply N.ltb_ge in E. apply parse_raw; assumption.
Qed.

Lemma surrogate_range c :
  is_high_surrogate c = true \/ is_low_surrogate c = true ->
  55296 <= c <= 57343.
Proof.
  unfold is_high_surrogate, is_low_surrogate.
  intros [H | H]; apply andb_true_iff in H as [H1 H2];
    apply N.leb_le in H1, H2; lia.
Qed.

Lemma not_surrogate c :
  is_high_surrogate c = false -> is_low_surrogate c = false ->
  c < 55296 \/ 57343 < c.
Proof.
  unfold is_high_surrogate, is_low_surrogate. intros H1 H2.
  apply andb_false_iff in H1, H2.
  rewrite !N.leb_gt in H1, H2. lia.
Qed.

Lemma parse_quote_body_upto n :
  forall s t, (length s <= n)%nat ->
    parse_string_chars (quote_body s ++ 34 :: t) = Some (s, t).
Proof.
  induction n as [| n IH]; intros s t Hlen.
  - destruct s; [reflexivity | simpl in Hlen; lia].
  - destruct s as [| c r]; [reflexivity |]. simpl in Hlen.
    cbn [quote_body].
    destruct (is_high_surrogate c) eqn:Hh.
    + pose proof (surrogate_range c (or_introl Hh)) as Hc.
      destruct r as [| d r'].
      * rewrite parse_unicode_escape by lia. reflexivity.
      * destruct (is_low_surrogate d) eqn:Hd.
        -- pose proof (surrogate_range d (or_intror Hd)) as Hd'.
           cbn [app]. rewrite parse_raw by lia. rewrite parse_raw by lia.
           rewrite IH by (simpl in Hlen; lia). reflexivity.
        -- rewrite <- app_assoc, parse_unicode_escape by lia.
           rewrite IH by lia. reflexivity.
    + destruct (is_low_surrogate c) eqn:Hl.
      * pose proof (surrogate_range c (or_intror Hl)) as Hc.
        rewrite <- app_assoc, parse_unicode_escape by lia.
        rewrite IH by lia. reflexivity.
      * rewrite <- app_assoc, parse_escape_unit by (apply not_surrogate; assumption).
        rewrite IH by lia. reflexivity.
Qed.

(** A quoted string is read back, whatever its code units. *)
Lemma parse_quote_body s t :
  parse_string_chars (quote_body s ++ 34 :: t) = Some (s, t).
Proof. apply (parse_quote_body_upto (length s)). lia. Qed.

Lemma json_nested_ind (P : json -> Prop) :
  P JNull -> (forall b, P (JBool b)) -> (forall lx, P (JNum lx)) ->
  (forall s, P (JStr s)) ->
  (forall xs, Forall P xs -> P (JArr xs)) ->
  (forall ms, Forall (fun kv => P (snd kv)) ms -> P (JObj ms)) ->
  forall v, P v.
Proof.
  intros Hnull Hbool Hnum Hstr Harr Hobj.
  fix IH 1. intros [| b | lx | s | xs | ms].
  - exact Hnull.
  - apply Hbool.
  - apply Hnum.
  - apply Hstr.
  - apply Harr. induction xs as [| x xs IHxs]; constructor; [apply IH | exact IHxs].
  - apply Hobj. induction ms as [| [k x] ms IHms]; constructor; [apply IH | exact IHms].
Qed.

Lemma plain_JArr xs : plain (JArr xs) <-> Forall plain xs.
Proof.
  induction xs as [| x xs IH].
  - split; [constructor | exact (fun _ => I)].
  - change (plain (JArr (x :: xs))) with (plain x /\ plain (JArr xs)).
    rewrite Forall_cons_iff, IH. reflexivity.
Qed.

Lemma plain_JObj ms : plain (JObj ms) <-> Forall (fun kv => plain (snd kv)) ms.
Proof.
  induction ms as [| [k x] ms IH].
  - split; [constructor | exact (fun _ => I)].
  - change (plain (JObj ((k, x) :: ms))) with (plain x /\ plain (JObj ms)).
    rewrite Forall_cons_iff, IH. reflexivity.
Qed.

(** The first unit of a written value is neither white space nor a
    closing bracket. *)
Lemma stringify_head v :
  plain v ->
  exists c r, JSON_stringify v = c :: r /\ is_json_ws c = false
              /\ (c =? 93) = false /\ (c =? 125) = false.
Proof.
  destruct v as [| [|] | lx | s | [| x xs] | [| [k x] ms]]; intros Hp;
    try (destruct Hp; fail); eexists _, _; (split; [reflexivity |]); repeat split.
Qed.

Lemma length_elements_tail xs : (1 <= length (elements_tail xs))%nat.
Proof. destruct xs; simpl; lia. Qed.

Lemma length_members_tail ms : (1 <= length (members_tail ms))%nat.
Proof. destruct ms as [| [k x] ms]; simpl; lia. Qed.

Lemma skip_ws_nonws c r : is_json_ws c = false -> skip_ws (c :: r) = c :: r.
Proof. intros H. simpl. rewrite H. reflexivity. Qed.

Lemma parse_elements_written xs :
  Forall reads_back xs ->
  forall x, reads_back x ->
  forall f rest, (length (JSON_stringify x ++ elements_tail xs) <= f)%nat ->
    parse_elements f (JSON_stringify x ++ elements_tail xs ++ rest)
    = Some (x :: xs, rest).
Proof.
  induction 1 as [| y ys Hy Hys IH]; intros x Hx f rest Hlen;
    rewrite length_app in Hlen.
  - destruct f as [| f]; [simpl in Hlen; lia |].
    cbn [parse_elements elements_tail].
    rewrite Hx by (simpl in Hlen; lia).
    reflexivity.
  - destruct f as [| f]; [simpl in Hlen; lia |].
    pose proof (length_elements_tail ys).
    cbn [parse_elements elements_tail]. cbn [elements_tail length] in Hlen.
    rewrite length_app in Hlen.
    rewrite Hx by lia.
    cbn [app skip_ws]. change (is_json_ws 44) with false. cbv iota.
    change (44 =? 44) with true. cbv iota.
    rewrite <- app_assoc.
    rewrite IH by (try assumption; rewrite length_app; lia).
    reflexivity.
Qed.

Lemma parse_members_written ms :
  Forall (fun kv => reads_back (snd kv)) ms ->
  forall k x, reads_back x ->
  forall f rest,
    (length (JSON_quote k ++ 58 :: JSON_stringify x ++ members_tail ms)%N <= f)%nat ->
    parse_members f (JSON_quote k ++ 58 :: JSON_stringify x ++ members_tail ms ++ rest)
    = Some ((k, x) :: ms, rest).
Proof.
  induction 1 as [| [k' y] ys Hy Hys IH]; intros k x Hx f rest Hlen;
    rewrite length_app in Hlen; cbn [length] in Hlen;
    rewrite length_app in Hlen.
  - destruct f as [| f]; [lia |].
    cbn [parse_members members_tail JSON_quote app skip_ws].
    change (is_json_ws 34) with false. cbv iota.
    cbn [starts_with]. change (34 =? 34) with true. cbv iota.
    rewrite <- app_assoc. cbn [app].
    rewrite parse_quote_body.
    cbn [skip_ws]. change (is_json_ws 58) with false. cbv iota.
    cbn [starts_with]. change (58 =? 58) with true. cbv iota.
    rewrite Hx by lia.
    reflexivity.
  - destruct f as [| f]; [lia |].
    pose proof (length_members_tail ys).
    cbn [members_tail length] in Hlen.
    cbn [parse_members members_tail JSON_quote app skip_ws].
    change (is_json_ws 34) with false. cbv iota.
    cbn [starts_with]. change (34 =? 34) with true. cbv iota.
    rewrite <- app_assoc. cbn [app].
    rewrite parse_quote_body.
    cbn [skip_ws]. change (is_json_ws 58) with false. cbv iota.
    cbn [starts_with]. change (58 =? 58) with true. cbv iota.
    rewrite Hx by lia.
    cbn [app skip_ws]. change (is_json_ws 44) with false. cbv iota.
    change (44 =? 44) with true. cbv iota.
    replace (34 :: ((quote_body k' ++ [34]) ++ 58 :: JSON_stringify y ++ members_tail ys) ++ rest)
      with (JSON_quote k' ++ 58 :: JSON_stringify y ++ members_tail ys ++ rest)
      by (unfold JSON_quote; cbn [app]; rewrite <- !app_assoc; cbn [app];
          rewrite <- ?app_assoc; reflexivity).
    rewrite IH by (try assumption; lia).
    reflexivity.
Qed.

Lemma parse_value_written v : plain v -> reads_back v.
Proof.
  induction v as [| b | lx | s | xs IH | ms IH] using json_nested_ind;
    intros Hp f rest Hlen.
  - destruct f as [| f]; [simpl in Hlen; lia | reflexivity].
  - destruct f as [| f]; [destruct b; simpl in Hlen; lia |].
    destruct b; reflexivity.
  - destruct Hp.
  - destruct f as [| f]; [simpl in Hlen; lia |].
    cbn [JSON_stringify JSON_quote app parse_value skip_ws].
    change (is_json_ws 34) with false. cbv iota.
    change (34 =? 34) with true. cbv iota.
    rewrite <- app_assoc. cbn [app]. rewrite parse_quote_body. reflexivity.
  - apply plain_JArr in Hp.
    destruct xs as [| x xs].
    + destruct f as [| f]; [simpl in Hlen; lia | reflexivity].
    + apply Forall_cons_iff in IH as [IHx IHxs].
      apply Forall_cons_iff in Hp as [Hpx Hpxs].
      change (JSON_stringify (JArr (x :: xs)))
        with (91 :: JSON_stringify x ++ elements_tail xs) in *.
      destruct f as [| f]; [simpl in Hlen; lia |].
      cbn [length] in Hlen.
      cbn [app parse_value skip_ws].
      change (is_json_ws 91) with false. cbv iota.
      change (91 =? 34) with false. change (91 =? 91) with true. cbv iota.
      assert (Hs : forall Y, starts_with 93 (skip_ws (JSON_stringify x ++ Y)) = None).
      { intros Y. destruct (stringify_head x Hpx) as (c & r & Hc & Hws & H93 & _).
        rewrite Hc. cbn [app]. rewrite skip_ws_nonws by assumption.
        cbn [starts_with]. rewrite H93. reflexivity. }
      rewrite <- app_assoc. rewrite Hs.
      rewrite parse_elements_written; [reflexivity | | | lia].
      * clear - IHxs Hpxs. induction xs as [| y ys IHys]; constructor.
        -- apply Forall_cons_iff in IHxs as [H _], Hpxs as [Hp _]. exact (H Hp).
        -- apply Forall_cons_iff in IHxs as [_ H], Hpxs as [_ Hp]. exact (IHys H Hp).
      * exact (IHx Hpx).
  - apply plain_JObj in Hp.
    destruct ms as [| [k x] ms].
    + destruct f as [| f]; [simpl in Hlen; lia | reflexivity].
    + apply Forall_cons_iff in IH as [IHx IHxs].
      apply Forall_cons_iff in Hp as [Hpx Hpxs].
      change (JSON_stringify (JObj ((k, x) :: ms)))
        with (123 :: JSON_quote k ++ 58 :: JSON_stringify x ++ members_tail ms) in *.
      destruct f as [| f]; [simpl in Hlen; lia |].
      cbn [length] in Hlen.
      cbn [app parse_value skip_ws].
      change (is_json_ws 123) with false. cbv iota.
      change (123 =? 34) with false. change (123 =? 91) with false.
      change (123 =? 123) with true. cbv iota.
      cbn [JSON_quote app skip_ws]. change (is_json_ws 34) with false. cbv iota.
      cbn [starts_with]. change (34 =? 125) with false. cbv iota.
      change (34 :: (quote_body k ++ [34]) ++ 58 :: JSON_stringify x ++ members_tail ms)
        with (JSON_quote k ++ 58 :: JSON_stringify x ++ members_tail ms) in *.
      replace (34 :: ((quote_body k ++ [34]) ++ 58 :: JSON_stringify x ++ members_tail ms) ++ rest)
        with (JSON_quote k ++ 58 :: JSON_stringify x ++ members_tail ms ++ rest)
        by (unfold JSON_quote; cbn [app]; rewrite <- !app_assoc; cbn [app];
            rewrite <- !app_assoc; reflexivity).
      rewrite parse_members_written; [reflexivity | | | lia].
      * clear - IHxs Hpxs. induction ms as [| [k y] ys IHys]; constructor.
        -- apply Forall_cons_iff in IHxs as [H _], Hpxs as [Hp _]. exact (H Hp).
        -- apply Forall_cons_iff in IHxs as [_ H], Hpxs as [_ Hp]. exact (IHys H Hp).
      * exact (IHx Hpx).
Qed.

(** [JSON.parse(JSON.stringify(v))] is [v] for a value without numbers. *)
Lemma JSON_parse_stringify v : plain v -> JSON_parse (JSON_stringify v) = Some v.
Proof.
  intros Hp. unfold JSON_parse.
  rewrite <- (app_nil_r (JSON_stringify v)) at 2.
  rewrite (parse_value_written v Hp) by lia. reflexivity.
Qed.

(** ** The storage helpers on records *)

Lemma plain_users us : plain (JArr (map user_to_json us)).
Proof.
  apply plain_JArr. induction us; constructor; [simpl; tauto | assumption].
Qed.

Lemma plain_messages ms : plain (JArr (map message_to_json ms)).
Proof.
  apply plain_JArr. induction ms; constructor; [simpl; tauto | assumption].
Qed.

Lemma as_users_to_json us : as_users (JArr (map user_to_json us)) = Some us.
Proof.
  unfold as_users. induction us as [| [u h c] us IH]; [reflexivity |].
  cbn [map all_some]. rewrite IH. reflexivity.
Qed.

Lemma as_messages_to_json ms : as_messages (JArr (map message_to_json ms)) = Some ms.
Proof.
  unfold as_messages. induction ms as [| [f t x d] ms IH]; [reflexivity |].
  cbn [map all_some]. rewrite IH. reflexivity.
Qed.

Lemma as_session_to_json u : as_session (session_to_json u) = Some u.
Proof. reflexivity. Qed.

Lemma or_else_written v d :
  plain v -> or_else (Some (JSON_stringify v)) d = JSON_stringify v.
Proof.
  intros Hp. destruct (stringify_head v Hp) as (c & r & -> & _). reflexivity.
Qed.

Lemma loadUsers_saveUsers us ls :
  loadUsers (saveUsers us ls) = JArr (map user_to_json us).
Proof.
  unfold loadUsers, saveUsers, getItem, setItem.
  rewrite lookup_insert_eq.
  rewrite or_else_written by apply plain_users.
  rewrite JSON_parse_stringify by apply plain_users. reflexivity.
Qed.

Lemma loadMessages_saveMessages ms ls :
  loadMessages (saveMessages ms ls) = JArr (map message_to_json ms).
Proof.
  unfold loadMessages, saveMessages, getItem, setItem.
  rewrite lookup_insert_eq.
  rewrite or_else_written by apply plain_messages.
  rewrite JSON_parse_stringify by apply plain_messages. reflexivity.
Qed.

Lemma loadUsers_setItem_other k v ls :
  k <> LS_USERS_KEY -> loadUsers (setItem k v ls) = loadUsers ls.
Proof.
  intros Hk. unfold loadUsers, getItem, setItem.
  rewrite lookup_insert_ne by assumption. reflexivity.
Qed.

Lemma loadUsers_removeItem_other k ls :
  k <> LS_USERS_KEY -> loadUsers (removeItem k ls) = loadUsers ls.
Proof.
  intros Hk. unfold loadUsers, getItem, removeItem.
  rewrite lookup_delete_ne by assumption. reflexivity.
Qed.

Lemma loadMessages_setItem_other k v ls :
  k <> LS_MSGS_KEY -> loadMessages (setItem k v ls) = loadMessages ls.
Proof.
  intros Hk. unfold loadMessages, getItem, setItem.
  rewrite lookup_insert_ne by assumption. reflexivity.
Qed.

Lemma loadMessages_removeItem_other k ls :
  k <> LS_MSGS_KEY -> loadMessages (removeItem k ls) = loadMessages ls.
Proof.
  intros Hk. unfold loadMessages, getItem, removeItem.
  rewrite lookup_delete_ne by assumption. reflexivity.
Qed.

Lemma loadCurrentUser_setItem_other k v ls :
  k <> LS_CURRENT_KEY -> loadCurrentUser (setItem k v ls) = loadCurrentUser ls.
Proof.
  intros Hk. unfold loadCurrentUser, getItem, setItem.
  rewrite lookup_insert_ne by assumption. reflexivity.
Qed.

Lemma loadUsers_saveMessages ms ls : loadUsers (saveMessages ms ls) = loadUsers ls.
Proof. apply loadUsers_setItem_other. discriminate. Qed.

Lemma loadMessages_saveUsers us ls : loadMessages (saveUsers us ls) = loadMessages ls.
Proof. apply loadMessages_setItem_other. discriminate. Qed.

Lemma loadCurrentUser_saveUsers us ls :
  loadCurrentUser (saveUsers us ls) = loadCurrentUser ls.
Proof. apply loadCurrentUser_setItem_other. discriminate. Qed.

Lemma loadCurrentUser_saveMessages ms ls :
  loadCurrentUser (saveMessages ms ls) = loadCurrentUser ls.
Proof. apply loadCurrentUser_setItem_other. discriminate. Qed.

Lemma loadUsers_saveCurrentUser u ls :
  loadUsers (saveCurrentUser u ls) = loadUsers ls.
Proof.
  unfold saveCurrentUser. destruct (ToBoolean u).
  - apply loadUsers_setItem_other. discriminate.
  - apply loadUsers_removeItem_other. discriminate.
Qed.

Lemma loadMessages_saveCurrentUser u ls :
  loadMessages (saveCurrentUser u ls) = loadMessages ls.
Proof.
  unfold saveCurrentUser. destruct (ToBoolean u).
  - apply loadMessages_setItem_other. discriminate.
  - apply loadMessages_removeItem_other. discriminate.
Qed.

(** The session written at login is the session read at the next start. *)
Lemma loadCurrentUser_saveCurrentUser name ls :
  loadCurrentUser (saveCurrentUser (session_to_json name) ls) = session_to_json name.
Proof.
  unfold loadCurrentUser, saveCurrentUser, getItem, setItem.
  cbn [ToBoolean session_to_json]. rewrite lookup_insert_eq.
  rewrite JSON_parse_stringify by (simpl; tauto). reflexivity.
Qed.

Lemma loadCurrentUser_cleared ls :
  loadCurrentUser (saveCurrentUser JNull ls) = JNull.
Proof.
  unfold loadCurrentUser, saveCurrentUser, getItem, removeItem.
  cbn [ToBoolean]. rewrite lookup_delete_eq. reflexivity.
Qed.

(** The store after a save, read again: rewriting with these equations
    settles what a handler left behind. *)
Create Rewrite HintDb store.

#[local] Hint Rewrite
  loadUsers_saveUsers loadMessages_saveMessages
  loadUsers_saveMessages loadMessages_saveUsers
  loadCurrentUser_saveUsers loadCurrentUser_saveMessages
  loadUsers_saveCurrentUser loadMessages_saveCurrentUser
  loadCurrentUser_saveCurrentUser loadCurrentUser_cleared
  as_users_to_json as_messages_to_json : store.

Ltac read_store :=
  unfold directory, message_log;
  cbn [localStorage currentUser selectedPeer];
  autorewrite with store.

(** ** Every reachable page is consistent *)

Section Reachable.

Variable toLowerCase : jsstring -> jsstring.

Lemma registered_app h eo : registered (h ++ [eo]) = registered h ++ registration eo.
Proof.
  unfold registered. rewrite flat_map_app. simpl. rewrite app_nil_r. reflexivity.
Qed.

Lemma is_empty_false (s : jsstring) : is_empty s = false <-> s <> [].
Proof. destruct s; simpl; split; congruence. Qed.

Lemma is_empty_true (s : jsstring) : is_empty s = true <-> s = [].
Proof. destruct s; simpl; split; congruence. Qed.

Lemma session_ok_app users more v :
  session_ok users v -> session_ok (users ++ more) v.
Proof.
  intros [-> | (u & Hu & ->)]; [left; reflexivity |].
  right. exists u. split; [apply in_or_app; left; assumption | reflexivity].
Qed.

Lemma directory_initial : directory initial = Some [].
Proof. reflexivity. Qed.

Lemma consistent_initial : consistent toLowerCase [] initial.
Proof.
  split.
  - reflexivity.
  - constructor.
  - constructor.
  - exists []. split; [reflexivity | constructor].
  - left. reflexivity.
  - reflexivity.
Qed.

(** An event that registers nobody and leaves the store and the session
    as they are. *)
Lemma consistent_peer h s eo peer :
  consistent toLowerCase h s ->
  registration eo = [] ->
  consistent toLowerCase (h ++ [eo]) (State (localStorage s) (currentUser s) peer).
Proof.
  intros [Hd Hn He Hl Hc Hs] Hreg.
  split; rewrite ?registered_app, ?Hreg, ?app_nil_r; assumption.
Qed.

Lemma consistent_unchanged h s eo :
  consistent toLowerCase h s ->
  registration eo = [] ->
  consistent toLowerCase (h ++ [eo]) s.
Proof.
  intros Hc Hreg. destruct s as [ls cu peer].
  apply (consistent_peer h (State ls cu peer) eo peer Hc Hreg).
Qed.

(** A branch of a handler that reports and changes nothing. *)
Ltac answered Hstep :=
  injection Hstep as <- <-; apply consistent_unchanged; [assumption | reflexivity].

Lemma existsb_same_name_false users name :
  existsb (fun u => same_name toLowerCase (username u) name) users = false ->
  ~ In (toLowerCase name) (map (fun u => toLowerCase (username u)) users).
Proof.
  intros Hex Hin. apply in_map_iff in Hin as (u & Hu & Hin).
  assert (existsb (fun u => same_name toLowerCase (username u) name) users = true)
    as Habs; [| congruence].
  apply existsb_exists. exists u. split; [assumption |].
  unfold same_name. apply jsstring_eqb_eq. assumption.
Qed.

Lemma register_consistent h s u p now o s' :
  consistent toLowerCase h s ->
  btnRegister_click toLowerCase u p now s = Some (o, s') ->
  consistent toLowerCase (h ++ [(ClickRegister u p now, o)]) s'.
Proof.
  intros Hc Hstep. unfold btnRegister_click in Hstep.
  destruct (is_empty (trim u) || is_empty p) eqn:Hguard.
  - answered Hstep.
  - apply orb_false_iff in Hguard as [Hu Hp].
    pose proof (directory_registered _ _ _ Hc) as Hd. unfold directory in Hd.
    rewrite Hd in Hstep.
    destruct (existsb _ (registered h)) eqn:Hex.
    + answered Hstep.
    + injection Hstep as <- <-.
      destruct Hc as [_ Hn He Hl Hcu Hs].
      split; rewrite ?registered_app; cbn [registration localStorage currentUser].
      * read_store. reflexivity.
      * rewrite map_app. cbn [map username].
        apply NoDup_app. split; [assumption |]. split.
        -- intros x Hx Hx'. apply list_elem_of_In in Hx, Hx'.
           destruct Hx' as [<- | []].
           revert Hx. apply existsb_same_name_false. assumption.
        -- apply NoDup_singleton.
      * apply Forall_app. split; [assumption |].
        constructor; [| constructor]. cbn [username]. apply is_empty_false. assumption.
      * read_store. exact Hl.
      * apply session_ok_app. assumption.
      * read_store. assumption.
Qed.

Lemma authenticate_found users name password u :
  authenticate toLowerCase users name password = inr u ->
  In u users /\ same_name toLowerCase (username u) name = true
  /\ hashPassword password = passwordHash u.
Proof.
  unfold authenticate. intros H.
  destruct (find _ users) as [v |] eqn:Hf; [| discriminate].
  destruct (jsstring_eqb (hashPassword password) (passwordHash v)) eqn:Hh;
    [| discriminate].
  cbn [negb] in H. injection H as <-.
  apply find_some in Hf as [Hin Hsame].
  apply jsstring_eqb_eq in Hh. auto.
Qed.

Lemma authenticate_error users name password e :
  authenticate toLowerCase users name password = inl e ->
  e = UserNotFound \/ e = WrongPassword.
Proof.
  unfold authenticate. intros H.
  destruct (find _ users) as [v |]; [| injection H as <-; auto].
  destruct (negb _); [injection H as <-; auto | discriminate].
Qed.

Lemma login_consistent h s u p o s' :
  consistent toLowerCase h s ->
  btnLogin_click toLowerCase u p s = Some (o, s') ->
  consistent toLowerCase (h ++ [(ClickLogin u p, o)]) s'.
Proof.
  intros Hc Hstep. unfold btnLogin_click in Hstep.
  destruct (is_empty (trim u) || is_empty p).
  - answered Hstep.
  - pose proof (directory_registered _ _ _ Hc) as Hd. unfold directory in Hd.
    rewrite Hd in Hstep.
    destruct (authenticate toLowerCase (registered h) (trim u) p) as [e | v] eqn:Ha.
    + answered Hstep.
    + injection Hstep as <- <-.
      apply authenticate_found in Ha as (Hin & _ & _).
      destruct Hc as [_ Hn He Hl Hcu Hs].
      split; rewrite ?registered_app, ?app_nil_r;
        cbn [registration localStorage currentUser]; rewrite ?app_nil_r;
        try assumption.
      * read_store. assumption.
      * read_store. exact Hl.
      * right. exists v. auto.
      * read_store. reflexivity.
Qed.

Lemma logout_consistent h s o s' :
  consistent toLowerCase h s ->
  btnLogout_click s = Some (o, s') ->
  consistent toLowerCase (h ++ [(ClickLogout, o)]) s'.
Proof.
  intros [Hd Hn He Hl Hcu Hs] Hstep. injection Hstep as <- <-.
  split; rewrite ?registered_app, ?app_nil_r;
    cbn [registration localStorage currentUser]; rewrite ?app_nil_r;
    try assumption.
  - read_store. assumption.
  - read_store. exact Hl.
  - left. reflexivity.
  - read_store. reflexivity.
Qed.

Lemma send_consistent h s r m now o s' :
  consistent toLowerCase h s ->
  btnSend_click r m now s = Some (o, s') ->
  consistent toLowerCase (h ++ [(ClickSend r m now, o)]) s'.
Proof.
  intros Hc Hstep. unfold btnSend_click in Hstep.
  destruct (negb (ToBoolean (currentUser s)));
    [answered Hstep |].
  destruct (is_empty r);
    [answered Hstep |].
  destruct (as_session (currentUser s)) as [me |]; [| discriminate].
  destruct (jsstring_eqb r me) eqn:Hself;
    [answered Hstep |].
  destruct (is_empty (trim m));
    [answered Hstep |].
  pose proof (directory_registered _ _ _ Hc) as Hd. unfold directory in Hd.
  rewrite Hd in Hstep.
  destruct (negb (existsb _ (registered h)));
    [answered Hstep |].
  destruct Hc as [_ Hn He (msgs & Hl & Hfrom) Hcu Hs].
  unfold message_log in Hl. rewrite Hl in Hstep.
  injection Hstep as <- <-.
  split; rewrite ?registered_app, ?app_nil_r;
    cbn [registration localStorage currentUser]; rewrite ?app_nil_r;
    try assumption.
  - read_store. assumption.
  - exists (msgs ++ [Message me r (trim m) now]). split.
    + read_store. reflexivity.
    + apply Forall_app. split; [assumption |]. constructor; [| constructor].
      cbn [from to]. apply jsstring_eqb_neq in Hself. congruence.
  - read_store. assumption.
Qed.

Lemma selectPeer_consistent h s e n o s' :
  consistent toLowerCase h s ->
  registration (e, o) = [] ->
  selectPeer n s = Some (o, s') ->
  consistent toLowerCase (h ++ [(e, o)]) s'.
Proof.
  intros Hc Hreg Hstep. unfold selectPeer in Hstep.
  destruct (negb (ToBoolean (currentUser s)));
    [injection Hstep as <- <-; apply consistent_unchanged; assumption |].
  destruct (as_session (currentUser s)) as [me |]; [| discriminate].
  destruct (jsstring_eqb n me);
    injection Hstep as <- <-.
  - apply consistent_unchanged; assumption.
  - apply consistent_peer; assumption.
Qed.

Lemma step_consistent h s e o s' :
  consistent toLowerCase h s ->
  step toLowerCase e s = Some (o, s') ->
  consistent toLowerCase (h ++ [(e, o)]) s'.
Proof.
  intros Hc Hstep. destruct e as [u p now | u p | | r m now | n | v |];
    cbn [step] in Hstep.
  - eapply register_consistent; eassumption.
  - eapply login_consistent; eassumption.
  - eapply logout_consistent; eassumption.
  - eapply send_consistent; eassumption.
  - eapply selectPeer_consistent; [eassumption | reflexivity | eassumption].
  - unfold recipientSelect_change in Hstep. destruct (negb (is_empty v)).
    + eapply selectPeer_consistent; [eassumption | reflexivity | eassumption].
    + injection Hstep as <- <-. apply consistent_peer; [assumption | reflexivity].
  - injection Hstep as <- <-. unfold reload.
    rewrite (session_persisted _ _ _ Hc).
    apply consistent_peer; [assumption | reflexivity].
Qed.

Lemma reachable_consistent h s :
  reachable toLowerCase h s -> consistent toLowerCase h s.
Proof.
  induction 1 as [| h s e o s' Hr IH Hstep].
  - apply consistent_initial.
  - eapply step_consistent; eassumption.
Qed.

(** No handler is ever stuck on a reachable page: the stored data has the
    shape the handlers wrote. *)
Lemma step_total h s e :
  reachable toLowerCase h s -> exists o s', step toLowerCase e s = Some (o, s').
Proof.
  intros Hr. apply reachable_consistent in Hr as [Hd _ _ (msgs & Hl & _) Hcu _].
  unfold directory in Hd. unfold message_log in Hl.
  assert (Hsel : forall n, exists o s', selectPeer n s = Some (o, s')).
  { intros n. unfold selectPeer.
    destruct Hcu as [-> | (u & _ & ->)]; cbn [ToBoolean negb]; [eauto |].
    rewrite as_session_to_json. destruct (jsstring_eqb n (username u)); eauto. }
  destruct e as [u p now | u p | | r m now | n | v |]; cbn [step].
  - unfold btnRegister_click. rewrite Hd.
    destruct (_ || _); [eauto |]. destruct (existsb _ _); eauto.
  - unfold btnLogin_click. rewrite Hd.
    destruct (_ || _); [eauto |]. destruct (authenticate _ _ _ _); eauto.
  - unfold btnLogout_click. eauto.
  - unfold btnSend_click. rewrite Hd, Hl.
    destruct Hcu as [-> | (u & _ & ->)]; cbn [ToBoolean negb]; [eauto |].
    rewrite as_session_to_json.
    destruct (is_empty r); [eauto |].
    destruct (jsstring_eqb r (username u)); [eauto |].
    destruct (is_empty (trim m)); [eauto |].
    destruct (existsb _ _); cbn [negb]; eauto.
  - apply Hsel.
  - unfold recipientSelect_change. destruct (negb (is_empty v)); [apply Hsel | eauto].
  - eauto.
Qed.

Lemma run_reachable es : forall h0 s0 h s,
  reachable toLowerCase h0 s0 ->
  run toLowerCase es s0 = Some (h, s) ->
  reachable toLowerCase (h0 ++ h) s.
Proof.
  induction es as [| e es IH]; intros h0 s0 h s Hr Hrun; cbn [run] in Hrun.
  - injection Hrun as <- <-. rewrite app_nil_r. assumption.
  - destruct (step toLowerCase e s0) as [[o s1] |] eqn:Hstep; [| discriminate].
    destruct (run toLowerCase es s1) as [[h1 s2] |] eqn:Hrest; [| discriminate].
    injection Hrun as <- <-.
    replace (h0 ++ (e, o) :: h1) with ((h0 ++ [(e, o)]) ++ h1)
      by (rewrite <- app_assoc; reflexivity).
    eapply IH; [| eassumption]. econstructor; eassumption.
Qed.

Lemma run_from_initial es h s :
  run toLowerCase es initial = Some (h, s) -> reachable toLowerCase h s.
Proof. intros H. apply (run_reachable es [] initial h s); [constructor | assumption]. Qed.

End Reachable.

(** ** The directory: registration and login *)

Lemma demo_reachable es :
  is_Some (run toLowerCase_latin1 es initial) ->
  reachable toLowerCase_latin1 (history_of es) (after es).
Proof.
  intros [[h s] H]. unfold history_of, after. rewrite H.
  apply (run_from_initial toLowerCase_latin1 es). assumption.
Qed.

Section Directory.

Variable toLowerCase : jsstring -> jsstring.

Lemma in_registered u h :
  In u (registered h) <->
  exists n p now,
    In (ClickRegister n p now, Registered) h
    /\ u = User (trim n) (hashPassword p) now.
Proof.
  unfold registered. rewrite in_flat_map. split.
  - intros ([e o] & Hin & Hu).
    destruct e as [n p now | | | | | |], o; cbn [registration In] in Hu;
      try contradiction.
    destruct Hu as [<- | []]. eauto.
  - intros (n & p & now & Hin & ->).
    exists (ClickRegister n p now, Registered). split; [assumption | left; reflexivity].
Qed.

Lemma find_no_match (users : list user) name :
  (forall u, In u users -> same_name toLowerCase (username u) name = false) ->
  find (fun u => same_name toLowerCase (username u) name) users = None.
Proof.
  intros H. destruct (find _ users) as [v |] eqn:Hf; [| reflexivity].
  apply find_some in Hf as [Hin Hsame]. rewrite (H v Hin) in Hsame. discriminate.
Qed.

(** With names distinct up to case, the lookup of the login handler finds
    the one record that matches. *)
Lemma find_the_match (users : list user) name u :
  NoDup (map (fun v => toLowerCase (username v)) users) ->
  In u users -> same_name toLowerCase (username u) name = true ->
  find (fun v => same_name toLowerCase (username v) name) users = Some u.
Proof.
  intros Hnd Hin Hsame.
  destruct (find _ users) as [v |] eqn:Hf.
  - apply find_some in Hf as [Hv Hsv].
    unfold same_name in Hsame, Hsv. apply jsstring_eqb_eq in Hsame, Hsv.
    assert (Heq : toLowerCase (username v) = toLowerCase (username u)) by congruence.
    f_equal.
    clear - Hnd Hin Hv Heq.
    induction users as [| w users IH]; [destruct Hin |].
    cbn [map] in Hnd. apply NoDup_cons in Hnd as [Hnot Hnd].
    assert (Hmem : forall x, In x users ->
              toLowerCase (username x) ∈ map (fun v => toLowerCase (username v)) users).
    { intros x Hx. apply list_elem_of_In. apply in_map_iff. eauto. }
    destruct Hin as [-> | Hin], Hv as [-> | Hv]; try reflexivity.
    + exfalso. apply Hnot. rewrite <- Heq. apply Hmem. assumption.
    + exfalso. apply Hnot. rewrite Heq. apply Hmem. assumption.
    + apply IH; assumption.
  - exfalso. apply find_none with (x := u) in Hf; [congruence | assumption].
Qed.

(** Past its guard, the login handler answers as [authenticate] does. *)
Lemma login_past_guard name pw s users :
  trim name <> [] -> pw <> [] -> directory s = Some users ->
  btnLogin_click toLowerCase name pw s =
  match authenticate toLowerCase users (trim name) pw with
  | inl e => Some (e, s)
  | inr u => Some (LoggedIn,
                   State (saveCurrentUser (session_to_json (username u)) (localStorage s))
                         (session_to_json (username u)) (selectedPeer s))
  end.
Proof.
  intros Hn Hp Hd. unfold btnLogin_click.
  apply is_empty_false in Hn, Hp. rewrite Hn, Hp. cbn [orb].
  unfold directory in Hd. rewrite Hd. reflexivity.
Qed.

Lemma register_past_guard name pw now s users :
  trim name <> [] -> pw <> [] -> directory s = Some users ->
  btnRegister_click toLowerCase name pw now s =
  if existsb (fun u => same_name toLowerCase (username u) (trim name)) users
  then Some (DuplicateUsername, s)
  else Some (Registered,
             State (saveUsers (users ++ [User (trim name) (hashPassword pw) now])
                              (localStorage s))
                   (currentUser s) (selectedPeer s)).
Proof.
  intros Hn Hp Hd. unfold btnRegister_click.
  apply is_empty_false in Hn, Hp. rewrite Hn, Hp. cbn [orb].
  unfold directory in Hd. rewrite Hd. reflexivity.
Qed.

(** C4 (amended).  The register handler answers InvalidInput ('Enter
    username & password') whenever the username is empty after trimming
    white space or the password is the empty string, and then the page
    and the store are what they were: no user record is created.  The
    password itself is not trimmed. *)
Theorem register_rejects_empty_input name pw now s :
  trim name = [] \/ pw = [] ->
  btnRegister_click toLowerCase name pw now s = Some (InvalidInput, s).
Proof.
  intros H. unfold btnRegister_click.
  assert (is_empty (trim name) || is_empty pw = true) as ->; [| reflexivity].
  apply orb_true_iff. rewrite !is_empty_true. assumption.
Qed.

(** C2 (amended).  Registering, with a non-empty password, a non-empty
    username that matches an existing record under case-insensitive
    comparison answers DuplicateUsername ('Username already exists') and
    leaves the page and the store, hence the directory, as they were;
    and after any history of events no two records of the directory have
    usernames equal under case-insensitive comparison. *)
Theorem register_duplicate_rejected :
  (forall s users u name pw now,
      directory s = Some users -> In u users ->
      same_name toLowerCase (username u) (trim name) = true ->
      trim name <> [] -> pw <> [] ->
      btnRegister_click toLowerCase name pw now s = Some (DuplicateUsername, s))
  /\ (forall h s, reachable toLowerCase h s ->
        exists users, directory s = Some users
          /\ NoDup (map (fun u => toLowerCase (username u)) users)).
Proof.
  split.
  - intros s users u name pw now Hd Hin Hsame Hn Hp.
    rewrite (register_past_guard name pw now s users Hn Hp Hd).
    assert (existsb (fun v => same_name toLowerCase (username v) (trim name)) users = true)
      as ->; [| reflexivity].
    apply existsb_exists. eauto.
  - intros h s Hr. apply reachable_consistent in Hr.
    exists (registered h). split; [apply Hr | apply Hr].
Qed.

(** C1 (amended).  With a username that is empty after trimming, or an
    empty password, the login handler answers InvalidInput ('Enter
    username & password') on every page, before any lookup, and changes
    nothing.  Otherwise, on a page reached by any history, it answers
    UserNotFound when no record of the directory matches the username
    case-insensitively, WrongPassword when the digest of the password
    differs from the passwordHash of the matching record, and else logs
    in with the stored record, whose username becomes the session.  Past
    the guard it logs in if and only if an earlier registration of a
    case-insensitively equal username succeeded with a password of the
    same digest: the same password, or another one with the same UTF-8
    encoding.  The record written then is still the one in the
    directory. *)
Theorem login_after_register :
  (forall name pw s,
      trim name = [] \/ pw = [] ->
      btnLogin_click toLowerCase name pw s = Some (InvalidInput, s))
  /\ (forall h s name pw,
        reachable toLowerCase h s -> trim name <> [] -> pw <> [] ->
        ((forall u, In u (registered h) ->
                    same_name toLowerCase (username u) (trim name) = false) ->
         btnLogin_click toLowerCase name pw s = Some (UserNotFound, s))
        /\ (forall u, In u (registered h) ->
              same_name toLowerCase (username u) (trim name) = true ->
              hashPassword pw <> passwordHash u ->
              btnLogin_click toLowerCase name pw s = Some (WrongPassword, s))
        /\ (forall u, In u (registered h) ->
              same_name toLowerCase (username u) (trim name) = true ->
              hashPassword pw = passwordHash u ->
              directory s = Some (registered h)
              /\ authenticate toLowerCase (registered h) (trim name) pw = inr u
              /\ exists s', btnLogin_click toLowerCase name pw s = Some (LoggedIn, s')
                            /\ currentUser s' = session_to_json (username u)
                            /\ directory s' = directory s)
        /\ ((exists s', btnLogin_click toLowerCase name pw s = Some (LoggedIn, s'))
            <-> exists n p now,
                  In (ClickRegister n p now, Registered) h
                  /\ same_name toLowerCase (trim n) (trim name) = true
                  /\ hashPassword p = hashPassword pw)
        /\ (forall n now,
              In (ClickRegister n pw now, Registered) h ->
              same_name toLowerCase (trim n) (trim name) = true ->
              exists s', btnLogin_click toLowerCase name pw s = Some (LoggedIn, s')
                         /\ currentUser s' = session_to_json (trim n))).
Proof.
  split.
  { intros name pw s H. unfold btnLogin_click.
    assert (is_empty (trim name) || is_empty pw = true) as ->; [| reflexivity].
    apply orb_true_iff. rewrite !is_empty_true. assumption. }
  intros h s name pw Hr Hn Hp.
  apply reachable_consistent in Hr as [Hd Hnd _ _ _ _].
  rewrite (login_past_guard name pw s (registered h) Hn Hp Hd).
  assert (Hfound : forall u, In u (registered h) ->
            same_name toLowerCase (username u) (trim name) = true ->
            authenticate toLowerCase (registered h) (trim name) pw =
            if negb (jsstring_eqb (hashPassword pw) (passwordHash u))
            then inl WrongPassword else inr u).
  { intros u Hin Hsame. unfold authenticate.
    rewrite (find_the_match (registered h) (trim name) u Hnd Hin Hsame). reflexivity. }
  split; [| split; [| split; [| split]]].
  - intros Hnone. unfold authenticate. rewrite find_no_match by assumption. reflexivity.
  - intros u Hin Hsame Hneq. rewrite (Hfound u Hin Hsame).
    apply jsstring_eqb_neq in Hneq. rewrite Hneq. reflexivity.
  - intros u Hin Hsame Hh. rewrite (Hfound u Hin Hsame).
    apply jsstring_eqb_eq in Hh. rewrite Hh. cbn [negb].
    split; [assumption |]. split; [reflexivity |].
    eexists. split; [reflexivity |]. split; [reflexivity |].
    unfold directory. cbn [localStorage]. rewrite loadUsers_saveCurrentUser. reflexivity.
  - split.
    + intros (s' & Hlog).
      destruct (authenticate toLowerCase (registered h) (trim name) pw) as [e | u] eqn:Ha.
      * apply authenticate_error in Ha. destruct Ha as [-> | ->]; discriminate.
      * apply authenticate_found in Ha as (Hin & Hsame & Hh).
        apply in_registered in Hin as (n & p & now & Hev & ->).
        exists n, p, now. cbn [username passwordHash] in *. auto.
    + intros (n & p & now & Hev & Hsame & Hh).
      assert (Hin : In (User (trim n) (hashPassword p) now) (registered h))
        by (apply in_registered; eauto).
      rewrite (Hfound _ Hin Hsame). cbn [passwordHash].
      rewrite <- Hh, jsstring_eqb_refl. cbn [negb]. eauto.
  - intros n now Hev Hsame.
    assert (Hin : In (User (trim n) (hashPassword pw) now) (registered h))
      by (apply in_registered; eauto).
    rewrite (Hfound _ Hin Hsame). cbn [passwordHash].
    rewrite jsstring_eqb_refl. cbn [negb]. eexists. split; reflexivity.
Qed.

End Directory.

(** Bob's record, as the first registration writes it. *)
Lemma directory_bob_only :
  directory (after bob_only) = Some [User (js "Bob") (hashPassword (js "pw")) stamp1].
Proof. vm_compute. reflexivity. Qed.

Lemma bob_and_alice_runs : is_Some (run toLowerCase_latin1 bob_and_alice initial).
Proof. vm_compute. eexists. reflexivity. Qed.

Lemma register_rejects_empty_input_witness :
  (trim (js "   ") = [] \/ js "pw" = [])
  /\ btnRegister_click toLowerCase_latin1 (js "   ") (js "pw") stamp1 (after bob_only)
     = Some (InvalidInput, after bob_only).
Proof.
  split; [left; reflexivity |].
  apply register_rejects_empty_input. left. reflexivity.
Defined.

(** C4, as stated, fails: a password of one space is empty after
    trimming, and the registration succeeds and writes a record. *)
Lemma register_accepts_blank_password :
  trim (js " ") = []
  /\ btnRegister_click toLowerCase_latin1 (js "Bob") (js " ") stamp1 initial
     = Some (Registered,
             State (saveUsers [User (js "Bob") (hashPassword (js " ")) stamp1] ∅)
                   JNull None)
  /\ directory (State (saveUsers [User (js "Bob") (hashPassword (js " ")) stamp1] ∅)
                      JNull None)
     = Some [User (js "Bob") (hashPassword (js " ")) stamp1].
Proof. repeat split; vm_compute; reflexivity. Qed.

Lemma register_duplicate_rejected_witness :
  btnRegister_click toLowerCase_latin1 (js " BOB") (js "x") stamp2 (after bob_only)
  = Some (DuplicateUsername, after bob_only)
  /\ exists users,
       directory (after bob_and_alice) = Some users
       /\ NoDup (map (fun u => toLowerCase_latin1 (username u)) users).
Proof.
  split.
  - apply (proj1 (register_duplicate_rejected toLowerCase_latin1)
             (after bob_only)
             [User (js "Bob") (hashPassword (js "pw")) stamp1]
             (User (js "Bob") (hashPassword (js "pw")) stamp1)).
    + vm_compute. reflexivity.
    + left. reflexivity.
    + vm_compute. reflexivity.
    + vm_compute. discriminate.
    + vm_compute. discriminate.
  - apply (proj2 (register_duplicate_rejected toLowerCase_latin1)
             (history_of bob_and_alice)).
    apply demo_reachable. apply bob_and_alice_runs.
Defined.

(** C2, as stated, fails: BOB matches the record of Bob, yet with an
    empty password the handler answers InvalidInput, not
    DuplicateUsername. *)
Lemma duplicate_with_empty_password :
  directory (after bob_only) = Some [User (js "Bob") (hashPassword (js "pw")) stamp1]
  /\ same_name toLowerCase_latin1 (js "Bob") (trim (js "BOB")) = true
  /\ btnRegister_click toLowerCase_latin1 (js "BOB") [] stamp2 (after bob_only)
     = Some (InvalidInput, after bob_only).
Proof. repeat split; vm_compute; reflexivity. Qed.

Lemma login_after_register_witness :
  btnLogin_click toLowerCase_latin1 (js " ") (js "secret") (after bob_and_alice)
  = Some (InvalidInput, after bob_and_alice)
  /\ exists s',
       btnLogin_click toLowerCase_latin1 (js "ALICE ") (js "secret") (after bob_and_alice)
       = Some (LoggedIn, s')
       /\ currentUser s' = session_to_json (js "alice").
Proof.
  destruct (login_after_register toLowerCase_latin1) as (Hguard & Hpast).
  split.
  - apply Hguard. left. reflexivity.
  - destruct (Hpast (history_of bob_and_alice) (after bob_and_alice)
                (js "ALICE ") (js "secret"))
      as (_ & _ & Hin & _).
    + apply demo_reachable. apply bob_and_alice_runs.
    + vm_compute. discriminate.
    + vm_compute. discriminate.
    + destruct (Hin (User (js "alice") (hashPassword (js "secret")) stamp2))
        as (_ & _ & s' & Hlog & Hcu & _).
      * vm_compute. right. left. reflexivity.
      * vm_compute. reflexivity.
      * reflexivity.
      * exists s'. split; assumption.
Defined.

(** C1, as stated, fails on both sides.  With an empty password the
    handler answers InvalidInput both for a username nobody registered,
    where the claim says UserNotFound, and for Bob, whose stored digest
    differs from the digest of the empty password, where the claim says
    WrongPassword.  And the same password is not needed to log in: a lone
    surrogate and U+FFFD are different passwords with the same UTF-8
    encoding, hence the same digest, and Bob, registered with the first
    only, logs in with the second. *)
Lemma login_guard_and_digest_collision :
  directory (after bob_only) = Some [User (js "Bob") (hashPassword (js "pw")) stamp1]
  /\ find (fun u => same_name toLowerCase_latin1 (username u) (trim (js "ghost")))
          [User (js "Bob") (hashPassword (js "pw")) stamp1] = None
  /\ btnLogin_click toLowerCase_latin1 (js "ghost") [] (after bob_only)
     = Some (InvalidInput, after bob_only)
  /\ hashPassword [] <> hashPassword (js "pw")
  /\ btnLogin_click toLowerCase_latin1 (js "Bob") [] (after bob_only)
     = Some (InvalidInput, after bob_only)
  /\ history_of bob_lone_surrogate
     = [(ClickRegister (js "Bob") lone_surrogate stamp1, Registered)]
  /\ lone_surrogate <> replacement_character
  /\ TextEncoder_encode lone_surrogate = TextEncoder_encode replacement_character
  /\ hashPassword lone_surrogate = hashPassword replacement_character
  /\ btnLogin_click toLowerCase_latin1 (js "Bob") replacement_character
       (after bob_lone_surrogate)
     = Some (LoggedIn,
             State (saveCurrentUser (session_to_json (js "Bob"))
                      (localStorage (after bob_lone_surrogate)))
                   (session_to_json (js "Bob")) None).
Proof.
  repeat split; try (vm_compute; reflexivity); vm_compute; discriminate.
Qed.

(** ** The stable sort *)

Section Sort.

Context {A : Type} (cmp : A -> A -> Z).

Lemma sort_insert_perm x l : Permutation (sort_insert cmp x l) (x :: l).
Proof.
  induction l as [| y r IH]; cbn [sort_insert]; [reflexivity |].
  destruct (0 <? cmp x y)%Z; [| reflexivity].
  rewrite IH. apply perm_swap.
Qed.

Lemma Array_sort_perm l : Permutation (Array_sort cmp l) l.
Proof.
  induction l as [| x r IH]; cbn [Array_sort]; [reflexivity |].
  rewrite sort_insert_perm, IH. reflexivity.
Qed.

(** Elements a predicate selects, none of which the comparator puts
    after another, keep their order. *)
Section Stable.

Variable p : A -> bool.
Hypothesis p_ties : forall a b, p a = true -> p b = true -> (0 <? cmp a b)%Z = false.

Lemma filter_sort_insert x l :
  List.filter p (sort_insert cmp x l) = List.filter p (x :: l).
Proof.
  induction l as [| y r IH]; cbn [sort_insert]; [reflexivity |].
  destruct (0 <? cmp x y)%Z eqn:Hxy; [| reflexivity].
  cbn [List.filter] in *. rewrite IH.
  destruct (p x) eqn:Hx, (p y) eqn:Hy; try reflexivity.
  rewrite (p_ties x y Hx Hy) in Hxy. discriminate.
Qed.

Lemma filter_Array_sort l : List.filter p (Array_sort cmp l) = List.filter p l.
Proof.
  induction l as [| x r IH]; cbn [Array_sort]; [reflexivity |].
  rewrite filter_sort_insert. cbn [List.filter]. rewrite IH. reflexivity.
Qed.

End Stable.

(** Where the comparator is the difference of a key, the result is in
    the order of the keys. *)
Section Ordered.

Variable key : A -> Z.
Variable ok : A -> Prop.
Hypothesis cmp_key : forall a b, ok a -> ok b -> cmp a b = (key a - key b)%Z.

Lemma sort_insert_sorted x l :
  ok x -> Forall ok l ->
  StronglySorted (fun a b => (key a <= key b)%Z) l ->
  StronglySorted (fun a b => (key a <= key b)%Z) (sort_insert cmp x l).
Proof.
  intros Hx Hok Hs. induction Hs as [| y r Hr IH Hy]; cbn [sort_insert].
  - constructor; constructor.
  - apply Forall_cons_iff in Hok as [Hoky Hokr].
    destruct (0 <? cmp x y)%Z eqn:Hxy.
    + apply Z.ltb_lt in Hxy. rewrite cmp_key in Hxy by assumption.
      constructor; [apply IH; assumption |].
      apply List.Forall_forall. intros z Hz.
      apply (Permutation_in _ (sort_insert_perm x r)) in Hz.
      destruct Hz as [<- | Hz]; [lia |].
      rewrite List.Forall_forall in Hy. apply Hy. assumption.
    + apply Z.ltb_ge in Hxy. rewrite cmp_key in Hxy by assumption.
      constructor; [constructor; assumption |].
      constructor; [lia |].
      rewrite List.Forall_forall in Hy. apply List.Forall_forall. intros z Hz.
      specialize (Hy z Hz). lia.
Qed.

Lemma Array_sort_sorted l :
  Forall ok l -> StronglySorted (fun a b => (key a <= key b)%Z) (Array_sort cmp l).
Proof.
  induction l as [| x r IH]; intros Hok; cbn [Array_sort]; [constructor |].
  apply Forall_cons_iff in Hok as [Hx Hr].
  apply sort_insert_sorted; [assumption | | apply IH; assumption].
  apply List.Forall_forall. intros z Hz.
  apply (Permutation_in _ (Array_sort_perm r)) in Hz.
  rewrite List.Forall_forall in Hr. apply Hr. assumption.
Qed.

End Ordered.

End Sort.

(** ** Messaging: sending and the conversation *)

Lemma between_sym a b m : between a b m = between b a m.
Proof. unfold between. apply orb_comm. Qed.

Lemma between_in_pair a b m : between a b m = true <-> in_pair a b m.
Proof.
  unfold between, in_pair.
  rewrite orb_true_iff, !andb_true_iff, !jsstring_eqb_eq. reflexivity.
Qed.

Lemma session_to_json_inj a b : session_to_json a = session_to_json b -> a = b.
Proof. intros H. injection H as H. assumption. Qed.

(** The sender of a reachable page is a registered, hence non-empty,
    name. *)
Lemma current_user_registered toLowerCase h s me :
  reachable toLowerCase h s -> currentUser s = session_to_json me ->
  me <> [] /\ exists u, In u (registered h) /\ username u = me.
Proof.
  intros Hr Hcu. apply reachable_consistent in Hr as [_ _ Hne _ Hc _].
  rewrite Hcu in Hc. destruct Hc as [Hnull | (u & Hin & Heq)]; [discriminate |].
  apply session_to_json_inj in Heq. subst me.
  rewrite List.Forall_forall in Hne. split; [apply Hne; assumption | eauto].
Qed.

(** Past its first guards, the send handler with a logged-in sender. *)
Lemma send_logged_in me to_ txt now s :
  currentUser s = session_to_json me -> to_ <> [] ->
  btnSend_click to_ txt now s =
  if jsstring_eqb to_ me then Some (SelfMessage, s)
  else if is_empty (trim txt) then Some (EmptyText, s)
  else
    match directory s with
    | None => None
    | Some users =>
        if negb (existsb (fun u => jsstring_eqb (username u) to_) users)
        then Some (UnknownRecipient, s)
        else
          match message_log s with
          | None => None
          | Some msgs =>
              Some (Sent,
                    State (saveMessages (msgs ++ [Message me to_ (trim txt) now])
                                        (localStorage s))
                          (currentUser s) (Some to_))
          end
    end.
Proof.
  intros Hcu Hto. unfold btnSend_click, directory, message_log.
  rewrite Hcu. cbn [ToBoolean negb]. rewrite as_session_to_json.
  apply is_empty_false in Hto. rewrite Hto. reflexivity.
Qed.

Lemma existsb_exact_false (users : list user) to_ :
  (forall u, In u users -> username u <> to_) ->
  existsb (fun u => jsstring_eqb (username u) to_) users = false.
Proof.
  intros H. destruct (existsb _ users) eqn:Hex; [| reflexivity].
  apply existsb_exists in Hex as (u & Hin & Heq).
  apply jsstring_eqb_eq in Heq. destruct (H u Hin Heq).
Qed.

(** C5.  On a page reached by any history, with A logged in, sending to
    A answers SelfMessage ("You can't send a message to yourself.")
    whatever the text, and the page and the store are what they were: no
    record is appended.  Consequently every record of the stored message
    log has a sender different from its recipient. *)
Theorem send_to_self_rejected toLowerCase h s :
  reachable toLowerCase h s ->
  (forall A txt now,
      currentUser s = session_to_json A ->
      btnSend_click A txt now s = Some (SelfMessage, s))
  /\ exists msgs, message_log s = Some msgs /\ Forall (fun m => from m <> to m) msgs.
Proof.
  intros Hr. split.
  - intros A txt now Hcu.
    destruct (current_user_registered toLowerCase h s A Hr Hcu) as [Hne _].
    rewrite (send_logged_in A A txt now s Hcu Hne), jsstring_eqb_refl. reflexivity.
  - apply reachable_consistent in Hr. apply Hr.
Qed.

(** C6 (amended).  When [to] is not the username of a record of the
    directory (compared exactly), the send handler appends nothing: it
    never answers Sent and leaves the page and the store as they were.
    It answers UnknownRecipient ('Recipient does not exist.') when a user
    is logged in, [to] is non-empty and is not the sender, and the text
    is non-empty after trimming.  The guards before the lookup answer
    first, whoever is registered: NotLoggedIn when nobody is logged in,
    NoRecipient ('Select a recipient.') when somebody is and [to] is
    empty, and EmptyText, a silent return, when [to] is non-empty and not
    the sender and the text is empty after trimming; each leaves the page
    and the store as they were. *)
Theorem send_unknown_recipient :
  (forall s users to_ txt now,
      directory s = Some users ->
      (forall u, In u users -> username u <> to_) ->
      (forall o s', btnSend_click to_ txt now s = Some (o, s') -> o <> Sent /\ s' = s)
      /\ (forall me, currentUser s = session_to_json me ->
            to_ <> [] -> to_ <> me -> trim txt <> [] ->
            btnSend_click to_ txt now s = Some (UnknownRecipient, s)))
  /\ (forall s to_ txt now,
        ToBoolean (currentUser s) = false ->
        btnSend_click to_ txt now s = Some (NotLoggedIn, s))
  /\ (forall s txt now,
        ToBoolean (currentUser s) = true ->
        btnSend_click [] txt now s = Some (NoRecipient, s))
  /\ (forall s me to_ txt now,
        currentUser s = session_to_json me ->
        to_ <> [] -> to_ <> me -> trim txt = [] ->
        btnSend_click to_ txt now s = Some (EmptyText, s)).
Proof.
  split; [| split; [| split]].
  - intros s users to_ txt now Hd Hno. apply existsb_exact_false in Hno. split.
    + intros o s' Hstep. unfold btnSend_click in Hstep.
      unfold directory in Hd. rewrite Hd, Hno in Hstep. cbn [negb] in Hstep.
      destruct (negb (ToBoolean (currentUser s)));
        [injection Hstep as <- <-; split; [discriminate | reflexivity] |].
      destruct (is_empty to_);
        [injection Hstep as <- <-; split; [discriminate | reflexivity] |].
      destruct (as_session (currentUser s)) as [me |]; [| discriminate].
      destruct (jsstring_eqb to_ me);
        [injection Hstep as <- <-; split; [discriminate | reflexivity] |].
      destruct (is_empty (trim txt));
        injection Hstep as <- <-; split; (discriminate || reflexivity).
    + intros me Hcu Hto Hme Htxt.
      rewrite (send_logged_in me to_ txt now s Hcu Hto).
      apply jsstring_eqb_neq in Hme. apply is_empty_false in Htxt.
      rewrite Hme, Htxt, Hd, Hno. reflexivity.
  - intros s to_ txt now Hout. unfold btnSend_click. rewrite Hout. reflexivity.
  - intros s txt now Hin. unfold btnSend_click. rewrite Hin. reflexivity.
  - intros s me to_ txt now Hcu Hto Hme Htxt.
    rewrite (send_logged_in me to_ txt now s Hcu Hto).
    apply jsstring_eqb_neq in Hme. apply is_empty_true in Htxt.
    rewrite Hme, Htxt. reflexivity.
Qed.

(** C10.  The send handler looks the recipient up by exact equality,
    the register and login handlers by equality of the lowercased names.
    So where [to] matches a registered username case-insensitively and
    none exactly, sending to it answers UnknownRecipient and appends
    nothing, although registering that name answers DuplicateUsername and
    logging in with it does not answer UserNotFound. *)
Theorem send_recipient_case_sensitive toLowerCase s me users u to_ txt now :
  currentUser s = session_to_json me ->
  directory s = Some users ->
  In u users -> same_name toLowerCase (username u) to_ = true ->
  (forall v, In v users -> username v <> to_) ->
  to_ <> [] -> trim to_ = to_ -> to_ <> me -> trim txt <> [] ->
  btnSend_click to_ txt now s = Some (UnknownRecipient, s)
  /\ (forall pw now', pw <> [] ->
        btnRegister_click toLowerCase to_ pw now' s = Some (DuplicateUsername, s))
  /\ (forall pw, pw <> [] ->
        btnLogin_click toLowerCase to_ pw s <> Some (UserNotFound, s)).
Proof.
  intros Hcu Hd Hin Hsame Hno Hto Htrim Hme Htxt. repeat split.
  - rewrite (send_logged_in me to_ txt now s Hcu Hto).
    apply jsstring_eqb_neq in Hme. apply is_empty_false in Htxt.
    rewrite Hme, Htxt, Hd, (existsb_exact_false users to_ Hno). reflexivity.
  - intros pw now' Hpw.
    rewrite (register_past_guard toLowerCase to_ pw now' s users)
      by (rewrite ?Htrim; assumption).
    rewrite Htrim.
    assert (existsb (fun v => same_name toLowerCase (username v) to_) users = true)
      as ->; [| reflexivity].
    apply existsb_exists. eauto.
  - intros pw Hpw.
    rewrite (login_past_guard toLowerCase to_ pw s users)
      by (rewrite ?Htrim; assumption).
    rewrite Htrim. unfold authenticate.
    destruct (find _ users) as [v |] eqn:Hf.
    + destruct (negb _); discriminate.
    + apply find_none with (x := u) in Hf; [congruence | assumption].
Qed.

Section Conversation.

Variable Date_ms : jsstring -> option Z.

Lemma at_time_ties t a b :
  at_time Date_ms t a = true -> at_time Date_ms t b = true ->
  (0 <? by_ts Date_ms a b)%Z = false.
Proof.
  unfold at_time, by_ts. rewrite !bool_decide_eq_true. intros -> ->.
  rewrite Z.sub_diag. reflexivity.
Qed.

Lemma by_ts_dated a b :
  dated Date_ms a -> dated Date_ms b ->
  by_ts Date_ms a b
  = (default 0%Z (Date_ms (ts a)) - default 0%Z (Date_ms (ts b)))%Z.
Proof. unfold dated, by_ts. intros [x ->] [y ->]. reflexivity. Qed.

Lemma sorted_time_le l :
  Forall (dated Date_ms) l ->
  StronglySorted (fun a b => (default 0 (Date_ms (ts a)) <= default 0 (Date_ms (ts b)))%Z) l ->
  StronglySorted (time_le Date_ms) l.
Proof.
  intros Hd Hs. induction Hs as [| x r Hr IH Hx]; constructor.
  - apply IH. apply Forall_cons_iff in Hd. apply Hd.
  - apply Forall_cons_iff in Hd as [[tx Hdx] Hdr].
    rewrite List.Forall_forall in *. intros y Hy.
    destruct (Hdr y Hy) as [ty Hty]. specialize (Hx y Hy).
    rewrite Hdx, Hty in Hx. exists tx, ty. auto.
Qed.

(** C3.  For a stored log whose timestamps are dates, the conversation
    of A with B holds exactly the messages whose sender and recipient are
    A and B in either direction, each as often as the log does; it is in
    ascending order of the timestamps; messages of one instant keep the
    order they have in the log; and the conversation of B with A is the
    same sequence.  It is what the page draws for A with B selected. *)
Theorem conversation_sorted_symmetric msgs A B :
  Forall (dated Date_ms) msgs ->
  (forall m, In m (conversation Date_ms msgs A B) <-> In m msgs /\ in_pair A B m)
  /\ Permutation (conversation Date_ms msgs A B) (List.filter (between A B) msgs)
  /\ StronglySorted (time_le Date_ms) (conversation Date_ms msgs A B)
  /\ (forall t,
        List.filter (at_time Date_ms t) (conversation Date_ms msgs A B)
        = List.filter (at_time Date_ms t) (List.filter (between A B) msgs))
  /\ conversation Date_ms msgs B A = conversation Date_ms msgs A B
  /\ (forall s, message_log s = Some msgs -> currentUser s = session_to_json A ->
        selectedPeer s = Some B -> B <> [] ->
        renderMessages Date_ms s = Some (Some (conversation Date_ms msgs A B))).
Proof.
  intros Hdated.
  assert (Hperm : Permutation (conversation Date_ms msgs A B)
                              (List.filter (between A B) msgs))
    by apply Array_sort_perm.
  assert (Hsub : Forall (dated Date_ms) (List.filter (between A B) msgs)).
  { rewrite List.Forall_forall in *. intros m Hm.
    apply filter_In in Hm as [Hm _]. apply Hdated. assumption. }
  split; [| split; [| split; [| split; [| split]]]].
  - intros m. split.
    + intros Hm. apply (Permutation_in _ Hperm) in Hm.
      apply filter_In in Hm as [Hm Hb]. split; [assumption |].
      apply between_in_pair. assumption.
    + intros [Hm Hp]. apply (Permutation_in _ (Permutation_sym Hperm)).
      apply filter_In. split; [assumption | apply between_in_pair; assumption].
  - assumption.
  - apply sorted_time_le.
    + rewrite List.Forall_forall in *. intros m Hm.
      apply Hsub. apply (Permutation_in _ Hperm). assumption.
    + apply (Array_sort_sorted (by_ts Date_ms) _ (dated Date_ms) by_ts_dated).
      assumption.
  - intros t. apply filter_Array_sort. apply at_time_ties.
  - unfold conversation. f_equal. apply filter_ext. intros m. apply between_sym.
  - intros s Hlog Hcu Hpeer HB. unfold renderMessages.
    unfold message_log in Hlog. rewrite Hlog, Hcu, Hpeer.
    cbn [ToBoolean negb as_session]. rewrite as_session_to_json.
    destruct B; [congruence | reflexivity].
Qed.

End Conversation.

Lemma alice_wrote_runs : is_Some (run toLowerCase_latin1 alice_wrote initial).
Proof. vm_compute. eexists. reflexivity. Qed.

Lemma directory_alice_logged_in :
  directory (after alice_logged_in)
  = Some [User (js "Bob") (hashPassword (js "pw")) stamp1;
          User (js "alice") (hashPassword (js "secret")) stamp2].
Proof. vm_compute. reflexivity. Qed.

Lemma send_to_self_rejected_witness :
  btnSend_click (js "alice") (js "hi") stamp4 (after alice_wrote)
  = Some (SelfMessage, after alice_wrote)
  /\ exists msgs,
       message_log (after alice_wrote) = Some msgs
       /\ Forall (fun m => from m <> to m) msgs.
Proof.
  destruct (send_to_self_rejected toLowerCase_latin1
              (history_of alice_wrote) (after alice_wrote)) as [Hself Hlog].
  - apply demo_reachable. apply alice_wrote_runs.
  - split; [| exact Hlog]. apply Hself. vm_compute. reflexivity.
Defined.

Lemma send_unknown_recipient_witness :
  btnSend_click (js "ghost") (js "hi") stamp3 (after alice_logged_in)
  = Some (UnknownRecipient, after alice_logged_in)
  /\ btnSend_click (js "ghost") (js "hi") stamp3 (after bob_and_alice)
     = Some (NotLoggedIn, after bob_and_alice)
  /\ btnSend_click [] (js "hi") stamp3 (after alice_logged_in)
     = Some (NoRecipient, after alice_logged_in)
  /\ btnSend_click (js "ghost") (js "  ") stamp3 (after alice_logged_in)
     = Some (EmptyText, after alice_logged_in).
Proof.
  destruct send_unknown_recipient as (Hghost & Hout & Hnone & Hempty).
  split; [| split; [| split]].
  - destruct (Hghost (after alice_logged_in)
                [User (js "Bob") (hashPassword (js "pw")) stamp1;
                 User (js "alice") (hashPassword (js "secret")) stamp2]
                (js "ghost") (js "hi") stamp3) as [_ Hunknown].
    + vm_compute. reflexivity.
    + intros u [<- | [<- | []]]; vm_compute; discriminate.
    + apply (Hunknown (js "alice")).
      * vm_compute. reflexivity.
      * vm_compute. discriminate.
      * vm_compute. discriminate.
      * vm_compute. discriminate.
  - apply Hout. vm_compute. reflexivity.
  - apply Hnone. vm_compute. reflexivity.
  - apply (Hempty (after alice_logged_in) (js "alice")).
    + vm_compute. reflexivity.
    + vm_compute. discriminate.
    + vm_compute. discriminate.
    + vm_compute. reflexivity.
Defined.

(** C6, as stated, fails: nobody is registered as ghost, yet with a text
    of spaces the handler returns silently (EmptyText), and with no
    recipient chosen it answers 'Select a recipient.' (NoRecipient);
    neither is UnknownRecipient. *)
Lemma send_unknown_recipient_other_answers :
  directory (after alice_logged_in)
  = Some [User (js "Bob") (hashPassword (js "pw")) stamp1;
          User (js "alice") (hashPassword (js "secret")) stamp2]
  /\ currentUser (after alice_logged_in) = session_to_json (js "alice")
  /\ btnSend_click (js "ghost") (js "  ") stamp3 (after alice_logged_in)
     = Some (EmptyText, after alice_logged_in)
  /\ btnSend_click [] (js "hi") stamp3 (after alice_logged_in)
     = Some (NoRecipient, after alice_logged_in).
Proof. repeat split; vm_compute; reflexivity. Qed.

Lemma send_recipient_case_sensitive_witness :
  btnSend_click (js "bob") (js "hi") stamp3 (after alice_logged_in)
  = Some (UnknownRecipient, after alice_logged_in)
  /\ btnRegister_click toLowerCase_latin1 (js "bob") (js "x") stamp3
       (after alice_logged_in)
     = Some (DuplicateUsername, after alice_logged_in)
  /\ btnLogin_click toLowerCase_latin1 (js "bob") (js "pw") (after alice_logged_in)
     <> Some (UserNotFound, after alice_logged_in).
Proof.
  destruct (send_recipient_case_sensitive toLowerCase_latin1
              (after alice_logged_in) (js "alice")
              [User (js "Bob") (hashPassword (js "pw")) stamp1;
               User (js "alice") (hashPassword (js "secret")) stamp2]
              (User (js "Bob") (hashPassword (js "pw")) stamp1)
              (js "bob") (js "hi") stamp3) as (Hsend & Hreg & Hlogin).
  - vm_compute. reflexivity.
  - vm_compute. reflexivity.
  - left. reflexivity.
  - vm_compute. reflexivity.
  - intros v [<- | [<- | []]]; vm_compute; discriminate.
  - vm_compute. discriminate.
  - vm_compute. reflexivity.
  - vm_compute. discriminate.
  - vm_compute. discriminate.
  - split; [exact Hsend |]. split.
    + apply Hreg. vm_compute. discriminate.
    + apply Hlogin. vm_compute. discriminate.
Defined.

(** The conversation of the sample log: the message stamped first comes
    first, the two of one instant stay in the order of the log, Carol's
    message is left out. *)
Lemma conversation_demo_log :
  conversation Date_ms_iso demo_log (js "alice") (js "Bob")
  = [Message (js "Bob") (js "alice") (js "early") stamp4;
     Message (js "alice") (js "Bob") (js "late") stamp1;
     Message (js "alice") (js "Bob") (js "first") stamp2;
     Message (js "Bob") (js "alice") (js "second") stamp3].
Proof. vm_compute. reflexivity. Qed.

Lemma demo_log_dated : Forall (dated Date_ms_iso) demo_log.
Proof. repeat constructor; vm_compute; eexists; reflexivity. Qed.

Lemma conversation_sorted_symmetric_witness :
  StronglySorted (time_le Date_ms_iso)
    (conversation Date_ms_iso demo_log (js "alice") (js "Bob"))
  /\ conversation Date_ms_iso demo_log (js "Bob") (js "alice")
     = conversation Date_ms_iso demo_log (js "alice") (js "Bob").
Proof.
  destruct (conversation_sorted_symmetric Date_ms_iso demo_log (js "alice") (js "Bob"))
    as (_ & _ & Hsorted & _ & Hsym & _).
  - repeat constructor; vm_compute; eexists; reflexivity.
  - split; assumption.
Defined.

(** ** The persistent store: session and collections *)

Lemma JSON_parse_empty : JSON_parse [] = None.
Proof. reflexivity. Qed.

Lemma login_success toLowerCase name pw s s' :
  btnLogin_click toLowerCase name pw s = Some (LoggedIn, s') ->
  exists users u,
    directory s = Some users /\ In u users
    /\ same_name toLowerCase (username u) (trim name) = true
    /\ hashPassword pw = passwordHash u
    /\ s' = State (saveCurrentUser (session_to_json (username u)) (localStorage s))
                  (session_to_json (username u)) (selectedPeer s).
Proof.
  unfold btnLogin_click, directory. intros H.
  destruct (_ || _); [discriminate |].
  destruct (as_users _) as [users |]; [| discriminate].
  destruct (authenticate toLowerCase users (trim name) pw) as [e | u] eqn:Ha.
  - apply authenticate_error in Ha. destruct Ha as [-> | ->]; discriminate.
  - injection H as <-. apply authenticate_found in Ha as (Hin & Hsame & Hh).
    exists users, u. auto.
Qed.

(** C7 (amended).  The session written by a successful login is the
    session of the page after a reload: the username of the record
    logged in with.  After a logout, the reloaded page has no session.
    On every page reached by a history of events, a reload keeps the
    session as it is.  A reload keeps the store and forgets the selected
    peer.  A session slot that is absent, or holds text that
    [JSON.parse] rejects, gives the reloaded page no session;
    [loadCurrentUser] raises nothing.  Text that [JSON.parse] accepts is
    taken as the session as parsed, whatever its shape. *)
Theorem session_survives_reload toLowerCase :
  (forall name pw s s',
      btnLogin_click toLowerCase name pw s = Some (LoggedIn, s') ->
      exists users u,
        directory s = Some users /\ In u users
        /\ same_name toLowerCase (username u) (trim name) = true
        /\ currentUser s' = session_to_json (username u)
        /\ currentUser (reload s') = session_to_json (username u))
  /\ (forall s o s',
        btnLogout_click s = Some (o, s') ->
        currentUser s' = JNull /\ currentUser (reload s') = JNull)
  /\ (forall h s,
        reachable toLowerCase h s -> currentUser (reload s) = currentUser s)
  /\ (forall s,
        getItem (localStorage s) LS_CURRENT_KEY = None ->
        currentUser (reload s) = JNull)
  /\ (forall s t,
        getItem (localStorage s) LS_CURRENT_KEY = Some t -> JSON_parse t = None ->
        currentUser (reload s) = JNull)
  /\ (forall s t v,
        getItem (localStorage s) LS_CURRENT_KEY = Some t -> JSON_parse t = Some v ->
        currentUser (reload s) = v)
  /\ (forall s,
        localStorage (reload s) = localStorage s /\ selectedPeer (reload s) = None).
Proof.
  split; [| split; [| split; [| split; [| split; [| split]]]]].
  - intros name pw s s' Hlog.
    apply login_success in Hlog as (users & u & Hd & Hin & Hsame & _ & ->).
    exists users, u. repeat split; try assumption.
    cbn [reload currentUser localStorage].
    apply loadCurrentUser_saveCurrentUser.
  - intros s o s' Hout. injection Hout as <- <-. split; [reflexivity |].
    cbn [reload currentUser localStorage]. apply loadCurrentUser_cleared.
  - intros h s Hr. apply reachable_consistent in Hr.
    cbn [reload currentUser]. apply Hr.
  - intros s Habsent. cbn [reload currentUser]. unfold loadCurrentUser.
    rewrite Habsent. reflexivity.
  - intros s t Hstored Hbad. cbn [reload currentUser]. unfold loadCurrentUser.
    rewrite Hstored, Hbad. reflexivity.
  - intros s t v Hstored Hgood. cbn [reload currentUser]. unfold loadCurrentUser.
    rewrite Hstored, Hgood. reflexivity.
  - intros s. split; reflexivity.
Qed.

Lemma session_survives_reload_witness :
  (exists s', btnLogin_click toLowerCase_latin1 (js "ALICE") (js "secret")
                (after bob_and_alice) = Some (LoggedIn, s')
              /\ currentUser (reload s') = session_to_json (js "alice"))
  /\ currentUser (reload (State (saveCurrentUser JNull (localStorage (after alice_logged_in)))
                                JNull None)) = JNull
  /\ currentUser (reload (after alice_wrote)) = currentUser (after alice_wrote)
  /\ currentUser (reload initial) = JNull
  /\ currentUser (reload broken_session) = JNull
  /\ currentUser (reload (stored_session (js "[ 1 , null ]")))
     = JArr [JNum (js "1"); JNull].
Proof.
  destruct (session_survives_reload toLowerCase_latin1)
    as (Hlogin & Hlogout & Hkept & Habsent & Hbad & Hgood & _).
  split; [| split; [| split; [| split; [| split]]]].
  - assert (Hrun : btnLogin_click toLowerCase_latin1 (js "ALICE") (js "secret")
                     (after bob_and_alice)
                   = Some (LoggedIn,
                           State (saveCurrentUser (session_to_json (js "alice"))
                                    (localStorage (after bob_and_alice)))
                                 (session_to_json (js "alice")) None))
      by (vm_compute; reflexivity).
    eexists. split; [exact Hrun |].
    destruct (Hlogin _ _ _ _ Hrun) as (users & u & _ & _ & _ & Hcu & Hre).
    rewrite Hre, <- Hcu. reflexivity.
  - apply (Hlogout (after alice_logged_in) LoggedOut). reflexivity.
  - apply (Hkept (history_of alice_wrote)). apply demo_reachable.
    apply alice_wrote_runs.
  - apply Habsent. reflexivity.
  - apply (Hbad broken_session (js "{oops")); vm_compute; reflexivity.
  - apply (Hgood (stored_session (js "[ 1 , null ]")) (js "[ 1 , null ]"));
      vm_compute; reflexivity.
Defined.

(** C7, as stated, fails: session text that is well-formed JSON and no
    session is not treated as no session.  With an empty object, an
    empty array, true or a number in the slot, or an object whose
    username is a number, the reloaded page holds that value, which is
    truthy; the page counts as logged in, and the send handler, which
    answers 'Please login' on a page without a session, gets past that
    guard and asks for a recipient. *)
Lemma reload_takes_other_shapes :
  currentUser (reload (stored_session (js "{}"))) = JObj []
  /\ currentUser (reload (stored_session (js "[]"))) = JArr []
  /\ currentUser (reload (stored_session (js "true"))) = JBool true
  /\ currentUser (reload (stored_session (js "1"))) = JNum (js "1")
  /\ currentUser (reload (stored_session
       (JSON_stringify (JObj [(js "username", JNum (js "5"))]))))
     = JObj [(js "username", JNum (js "5"))]
  /\ ToBoolean (JObj []) = true
  /\ ToBoolean (JArr []) = true
  /\ ToBoolean (JBool true) = true
  /\ ToBoolean (JNum (js "1")) = true
  /\ ToBoolean (JObj [(js "username", JNum (js "5"))]) = true
  /\ as_session (JObj []) = None
  /\ btnSend_click [] (js "hi") stamp1 (reload initial)
     = Some (NotLoggedIn, reload initial)
  /\ btnSend_click [] (js "hi") stamp1 (reload broken_session)
     = Some (NotLoggedIn, reload broken_session)
  /\ btnSend_click [] (js "hi") stamp1 (reload (stored_session (js "{}")))
     = Some (NoRecipient, reload (stored_session (js "{}")))
  /\ btnSend_click [] (js "hi") stamp1 (reload (stored_session (js "1")))
     = Some (NoRecipient, reload (stored_session (js "1"))).
Proof. repeat split; vm_compute; reflexivity. Qed.

(** C9 (amended).  Loading the user directory or the message log raises
    nothing: it gives the empty sequence when the stored value is absent
    or is text that [JSON.parse] rejects, and otherwise the value the
    text denotes, which is the sequence of records when the text was
    written by [saveUsers] or [saveMessages]. *)
Theorem load_fails_soft ls :
  (getItem ls LS_USERS_KEY = None -> loadUsers ls = JArr [])
  /\ (forall t, getItem ls LS_USERS_KEY = Some t -> JSON_parse t = None ->
        loadUsers ls = JArr [])
  /\ (forall t v, getItem ls LS_USERS_KEY = Some t -> JSON_parse t = Some v ->
        loadUsers ls = v)
  /\ (forall us, loadUsers (saveUsers us ls) = JArr (map user_to_json us))
  /\ (getItem ls LS_MSGS_KEY = None -> loadMessages ls = JArr [])
  /\ (forall t, getItem ls LS_MSGS_KEY = Some t -> JSON_parse t = None ->
        loadMessages ls = JArr [])
  /\ (forall t v, getItem ls LS_MSGS_KEY = Some t -> JSON_parse t = Some v ->
        loadMessages ls = v)
  /\ (forall ms, loadMessages (saveMessages ms ls) = JArr (map message_to_json ms)).
Proof.
  repeat split.
  - intros H. unfold loadUsers. rewrite H. reflexivity.
  - intros t H Hbad. unfold loadUsers. rewrite H.
    destruct t as [| c r]; [reflexivity |]. cbn [or_else]. rewrite Hbad. reflexivity.
  - intros t v H Hv. unfold loadUsers. rewrite H.
    destruct t as [| c r]; [rewrite JSON_parse_empty in Hv; discriminate |].
    cbn [or_else]. rewrite Hv. reflexivity.
  - intros us. apply loadUsers_saveUsers.
  - intros H. unfold loadMessages. rewrite H. reflexivity.
  - intros t H Hbad. unfold loadMessages. rewrite H.
    destruct t as [| c r]; [reflexivity |]. cbn [or_else]. rewrite Hbad. reflexivity.
  - intros t v H Hv. unfold loadMessages. rewrite H.
    destruct t as [| c r]; [rewrite JSON_parse_empty in Hv; discriminate |].
    cbn [or_else]. rewrite Hv. reflexivity.
  - intros ms. apply loadMessages_saveMessages.
Qed.

Lemma load_fails_soft_witness :
  loadUsers ∅ = JArr []
  /\ loadUsers (setItem LS_USERS_KEY (js "[{oops") ∅) = JArr []
  /\ loadMessages (setItem LS_MSGS_KEY (js "[ true , [ ] ]") ∅)
     = JArr [JBool true; JArr []].
Proof.
  split; [| split].
  - destruct (load_fails_soft ∅) as (Habsent & _). apply Habsent. reflexivity.
  - destruct (load_fails_soft (setItem LS_USERS_KEY (js "[{oops") ∅))
      as (_ & Hbad & _).
    apply (Hbad (js "[{oops")); vm_compute; reflexivity.
  - destruct (load_fails_soft (setItem LS_MSGS_KEY (js "[ true , [ ] ]") ∅))
      as (_ & _ & _ & _ & _ & _ & Hgood & _).
    apply (Hgood (js "[ true , [ ] ]")); vm_compute; reflexivity.
Defined.

(** C9, as stated, fails: the stored text null parses, and what is
    loaded is null, which is not a sequence; likewise an object in the
    slot of the message log. *)
Lemma load_returns_null :
  JSON_parse (js "null") = Some JNull
  /\ loadUsers (setItem LS_USERS_KEY (js "null") ∅) = JNull
  /\ as_users (loadUsers (setItem LS_USERS_KEY (js "null") ∅)) = None
  /\ loadMessages (setItem LS_MSGS_KEY (js "{}") ∅) = JObj []
  /\ as_messages (loadMessages (setItem LS_MSGS_KEY (js "{}") ∅)) = None.
Proof. repeat split; vm_compute; reflexivity. Qed.

(** ** The password digest *)

Lemma all_below_spec n P :
  all_below n P = true -> forall c, (N.to_nat c < n)%nat -> P c = true.
Proof.
  induction n as [| k IH]; intros Hall c Hc; [lia |].
  cbn [all_below] in Hall. apply andb_true_iff in Hall as [Hk Hrest].
  destruct (Nat.eq_dec (N.to_nat c) k) as [<- | Hne].
  - rewrite N2Nat.id in Hk. assumption.
  - apply IH; [assumption | lia].
Qed.

(** [b.toString(16).padStart(2,'0')] is the byte on two digits. *)
Lemma byte_to_hex b : b < 256 -> padStart 2 48 (toString16 b) = hex2 b.
Proof.
  intros Hb.
  apply jsstring_eqb_eq.
  apply (all_below_spec 256
           (fun b => jsstring_eqb (padStart 2 48 (toString16 b)) (hex2 b))).
  - vm_compute. reflexivity.
  - lia.
Qed.

Lemma hexdigit_lower d : d < 16 -> is_lower_hex (hexdigit d).
Proof.
  intros Hd. unfold is_lower_hex, hexdigit.
  destruct (d <? 10) eqn:E; [apply N.ltb_lt in E | apply N.ltb_ge in E]; lia.
Qed.

Lemma digest_bytes_length h : length (SHA256.digest_bytes h) = 32%nat.
Proof. reflexivity. Qed.

Lemma digest_bytes_range h : Forall (fun b => b < 256) (SHA256.digest_bytes h).
Proof.
  unfold SHA256.digest_bytes, SHA256.be_bytes4. cbn [app].
  repeat constructor; apply N.mod_lt; discriminate.
Qed.

Lemma concat_hex_bytes (l : list N) :
  Forall (fun b => b < 256) l ->
  concat (map (fun b => padStart 2 48 (toString16 b)) l) = concat (map hex2 l)
  /\ length (concat (map hex2 l)) = (2 * length l)%nat
  /\ Forall is_lower_hex (concat (map hex2 l)).
Proof.
  induction 1 as [| b l Hb Hl (IH1 & IH2 & IH3)].
  - repeat split. constructor.
  - cbn [map concat]. rewrite byte_to_hex by assumption. rewrite IH1.
    split; [reflexivity |]. split.
    + cbn [hex2 app length]. rewrite IH2. lia.
    + cbn [hex2 app]. constructor; [| constructor; [| assumption]].
      * apply hexdigit_lower. apply N.Div0.div_lt_upper_bound. lia.
      * apply hexdigit_lower. apply N.mod_lt. discriminate.
Qed.

(** The implementation of SHA-256 on the vectors of FIPS 180-4. *)
Lemma sha256_abc :
  concat (map hex2 (SHA256.digest (TextEncoder_encode (js "abc"))))
  = js "ba7816bf8f01cfea414140de5dae2223b00361a396177a9cb410ff61f20015ad".
Proof. vm_compute. reflexivity. Qed.

Lemma sha256_two_blocks :
  concat (map hex2 (SHA256.digest (TextEncoder_encode
    (js "abcdbcdecdefdefgefghfghighijhijkijkljklmklmnlmnomnopnopq"))))
  = js "248d6a61d20638b8e5c026930c3e6039a33ce45964ff2167f6ecedd419db06c1".
Proof. vm_compute. reflexivity. Qed.

(** *** The encoder against the standard *)

(** Quotients and remainders are named before linear arithmetic. *)
Ltac hide t :=
  let x := fresh "x" in let E := fresh "E" in
  remember t as x eqn:E in *; clear E.

Ltac hide_div :=
  repeat match goal with
    | |- context [?a mod ?b] => hide (a mod b)
    | H : context [?a mod ?b] |- _ => hide (a mod b)
    | |- context [?a / ?b] => hide (a / b)
    | H : context [?a / ?b] |- _ => hide (a / b)
    end.

Ltac dlia := hide_div; lia.

Lemma shiftr_div x n : N.shiftr x n = x / 2 ^ n.
Proof. apply N.shiftr_div_pow2. Qed.

Lemma land_63 x : N.land x 63 = x mod 64.
Proof. exact (N.land_ones x 6). Qed.

(** Below the marker bits, [|] adds. *)
Lemma lor_128 x : x < 64 -> N.lor 128 x = 128 + x.
Proof.
  intros Hx. apply N.eqb_eq.
  apply (all_below_spec 64 (fun x => N.lor 128 x =? 128 + x));
    [vm_compute; reflexivity | lia].
Qed.

Lemma lor_192 x : x < 32 -> N.lor 192 x = 192 + x.
Proof.
  intros Hx. apply N.eqb_eq.
  apply (all_below_spec 32 (fun x => N.lor 192 x =? 192 + x));
    [vm_compute; reflexivity | lia].
Qed.

Lemma lor_224 x : x < 16 -> N.lor 224 x = 224 + x.
Proof.
  intros Hx. apply N.eqb_eq.
  apply (all_below_spec 16 (fun x => N.lor 224 x =? 224 + x));
    [vm_compute; reflexivity | lia].
Qed.

Lemma lor_240 x : x < 8 -> N.lor 240 x = 240 + x.
Proof.
  intros Hx. apply N.eqb_eq.
  apply (all_below_spec 8 (fun x => N.lor 240 x =? 240 + x));
    [vm_compute; reflexivity | lia].
Qed.

Lemma mod_64 x : x mod 64 < 64.
Proof. apply N.mod_lt. discriminate. Qed.

(** The shifts and masks of the encoder lay the bits out as the table of
    the standard does. *)
Lemma utf8_of_code_point_bytes v :
  v < 2097152 -> utf8_of_code_point v = utf8_bytes v.
Proof.
  intros Hv. unfold utf8_of_code_point, utf8_bytes.
  rewrite !land_63, !shiftr_div.
  change (2 ^ 6) with 64. change (2 ^ 12) with 4096. change (2 ^ 18) with 262144.
  destruct (N.ltb_spec v 128) as [_ | _]; [reflexivity |].
  destruct (N.ltb_spec v 2048) as [H2 | _].
  { rewrite lor_192 by (apply N.Div0.div_lt_upper_bound; lia).
    rewrite lor_128 by apply mod_64. reflexivity. }
  destruct (N.ltb_spec v 65536) as [H3 | _].
  { rewrite lor_224 by (apply N.Div0.div_lt_upper_bound; lia).
    rewrite !lor_128 by apply mod_64. reflexivity. }
  rewrite lor_240 by (apply N.Div0.div_lt_upper_bound; lia).
  rewrite !lor_128 by apply mod_64. reflexivity.
Qed.

Lemma div_1024 c k : c / 1024 = k <-> 1024 * k <= c < 1024 * k + 1024.
Proof.
  pose proof (N.div_mod c 1024 ltac:(discriminate)) as Hc.
  pose proof (N.mod_lt c 1024 ltac:(discriminate)) as Hr.
  split; [intros <-; dlia | intros H].
  symmetry. apply (N.div_unique c 1024 k (c - 1024 * k)); lia.
Qed.

Lemma is_high_surrogate_div c : is_high_surrogate c = (c / 1024 =? 54).
Proof.
  unfold is_high_surrogate.
  destruct (N.eqb_spec (c / 1024) 54) as [H | H]; rewrite div_1024 in H.
  - apply andb_true_iff. split; apply N.leb_le; lia.
  - apply andb_false_iff.
    destruct (N.leb_spec 55296 c); [| left; reflexivity].
    destruct (N.leb_spec c 56319); [| right; reflexivity]. lia.
Qed.

Lemma is_low_surrogate_div c : is_low_surrogate c = (c / 1024 =? 55).
Proof.
  unfold is_low_surrogate.
  destruct (N.eqb_spec (c / 1024) 55) as [H | H]; rewrite div_1024 in H.
  - apply andb_true_iff. split; apply N.leb_le; lia.
  - apply andb_false_iff.
    destruct (N.leb_spec 56320 c); [| left; reflexivity].
    destruct (N.leb_spec c 57343); [| right; reflexivity]. lia.
Qed.

(** The value of a surrogate pair, by subtraction as the encoder has it
    and by the low bits as the standard has it. *)
Lemma surrogate_pair_value c d :
  c / 1024 = 54 -> d / 1024 = 55 ->
  65536 + (c - 55296) * 1024 + (d - 56320)
  = 65536 + (c mod 1024) * 1024 + d mod 1024.
Proof.
  intros Hc Hd.
  pose proof (N.div_mod c 1024 ltac:(discriminate)) as Ec.
  pose proof (N.div_mod d 1024 ltac:(discriminate)) as Ed.
  rewrite Hc in Ec. rewrite Hd in Ed. dlia.
Qed.

Lemma scalar_values_range s :
  Forall code_unit s -> Forall (fun v => v < 1114112) (scalar_values s).
Proof.
  assert (Hboth : forall s,
            (Forall code_unit s -> Forall (fun v => v < 1114112) (scalar_values s))
            /\ (forall c, Forall code_unit (c :: s) ->
                  Forall (fun v => v < 1114112) (scalar_values (c :: s)))).
  { clear s. induction s as [| d r [IH0 IH1]].
    - split; [constructor |]. intros c Hc. apply Forall_cons_1 in Hc as [Hc _].
      unfold code_unit in Hc. cbn [scalar_values].
      destruct (c / 1024 =? 54); [repeat constructor |].
      destruct (c / 1024 =? 55); repeat constructor. lia.
    - split; [apply IH1 |]. intros c Hc. apply Forall_cons_1 in Hc as [Hc Hr].
      pose proof Hr as Hdr. apply Forall_cons_1 in Hdr as [Hd Hr'].
      unfold code_unit in Hc, Hd.
      change (scalar_values (c :: d :: r)) with
        (if c / 1024 =? 54 then
           if d / 1024 =? 55
           then (65536 + (c mod 1024) * 1024 + d mod 1024) :: scalar_values r
           else 65533 :: scalar_values (d :: r)
         else if c / 1024 =? 55 then 65533 :: scalar_values (d :: r)
         else c :: scalar_values (d :: r)).
      pose proof (N.mod_lt c 1024 ltac:(discriminate)).
      pose proof (N.mod_lt d 1024 ltac:(discriminate)).
      destruct (c / 1024 =? 54).
      + destruct (d / 1024 =? 55); constructor; auto; dlia.
      + destruct (c / 1024 =? 55); constructor; auto; dlia. }
  apply Hboth.
Qed.

(** The bytes the encoder gives are the UTF-8 form of the scalar values
    of the string. *)
Lemma TextEncoder_encode_UTF8 s :
  Forall code_unit s -> TextEncoder_encode s = UTF8 s.
Proof.
  assert (Hboth : forall s,
            (Forall code_unit s -> TextEncoder_encode s = UTF8 s)
            /\ (forall c, Forall code_unit (c :: s) ->
                  TextEncoder_encode (c :: s) = UTF8 (c :: s))).
  { clear s. unfold UTF8. induction s as [| d r [IH0 IH1]].
    - split; [reflexivity |]. intros c Hc. apply Forall_cons_1 in Hc as [Hc _].
      unfold code_unit in Hc. cbn [TextEncoder_encode scalar_values].
      rewrite is_high_surrogate_div, is_low_surrogate_div.
      destruct (c / 1024 =? 54); [reflexivity |].
      destruct (c / 1024 =? 55); [reflexivity |].
      cbn [flat_map]. rewrite utf8_of_code_point_bytes by lia. reflexivity.
    - split; [apply IH1 |]. intros c Hc. apply Forall_cons_1 in Hc as [Hc Hr].
      pose proof Hr as Hdr. apply Forall_cons_1 in Hdr as [Hd Hr'].
      unfold code_unit in Hc, Hd.
      change (TextEncoder_encode (c :: d :: r)) with
        (if is_high_surrogate c then
           if is_low_surrogate d then
             utf8_of_code_point (65536 + (c - 55296) * 1024 + (d - 56320))
               ++ TextEncoder_encode r
           else [239; 191; 189] ++ TextEncoder_encode (d :: r)
         else if is_low_surrogate c then [239; 191; 189] ++ TextEncoder_encode (d :: r)
         else utf8_of_code_point c ++ TextEncoder_encode (d :: r)).
      change (scalar_values (c :: d :: r)) with
        (if c / 1024 =? 54 then
           if d / 1024 =? 55
           then (65536 + (c mod 1024) * 1024 + d mod 1024) :: scalar_values r
           else 65533 :: scalar_values (d :: r)
         else if c / 1024 =? 55 then 65533 :: scalar_values (d :: r)
         else c :: scalar_values (d :: r)).
      rewrite !is_high_surrogate_div, !is_low_surrogate_div.
      rewrite (IH1 d Hr), (IH0 Hr').
      pose proof (N.mod_lt c 1024 ltac:(discriminate)).
      pose proof (N.mod_lt d 1024 ltac:(discriminate)).
      destruct (N.eqb_spec (c / 1024) 54) as [Ec | _].
      + destruct (N.eqb_spec (d / 1024) 55) as [Ed | _]; [| reflexivity].
        rewrite (surrogate_pair_value c d Ec Ed). cbn [flat_map].
        rewrite utf8_of_code_point_bytes by dlia. reflexivity.
      + destruct (c / 1024 =? 55); [reflexivity |].
        cbn [flat_map]. rewrite utf8_of_code_point_bytes by lia. reflexivity. }
  apply Hboth.
Qed.

Lemma utf8_bytes_range v :
  v < 1114112 -> Forall (fun b => b < 256) (utf8_bytes v).
Proof.
  intros Hv. unfold utf8_bytes.
  pose proof (mod_64 v). pose proof (mod_64 (v / 64)). pose proof (mod_64 (v / 4096)).
  destruct (N.ltb_spec v 128); [repeat constructor; lia |].
  destruct (N.ltb_spec v 2048).
  { assert (v / 64 < 32) by (apply N.Div0.div_lt_upper_bound; lia).
    repeat constructor; dlia. }
  destruct (N.ltb_spec v 65536).
  { assert (v / 4096 < 16) by (apply N.Div0.div_lt_upper_bound; lia).
    repeat constructor; dlia. }
  assert (v / 262144 < 5) by (apply N.Div0.div_lt_upper_bound; lia).
  repeat constructor; dlia.
Qed.

Lemma UTF8_range s : Forall code_unit s -> Forall (fun b => b < 256) (UTF8 s).
Proof.
  intros Hs. apply scalar_values_range in Hs. unfold UTF8.
  induction Hs as [| v vs Hv _ IH]; [constructor |].
  cbn [flat_map]. apply Forall_app. split; [apply utf8_bytes_range; assumption | exact IH].
Qed.

(** A decoder of UTF-8 reads the bytes of a scalar value back. *)
Lemma utf8_decode_bytes v rest :
  v < 1114112 ->
  utf8_decode (utf8_bytes v ++ rest) = option_map (cons v) (utf8_decode rest).
Proof.
  intros Hv. unfold utf8_bytes.
  pose proof (N.div_mod v 64 ltac:(discriminate)) as E0.
  pose proof (N.div_mod (v / 64) 64 ltac:(discriminate)) as E1.
  pose proof (N.div_mod (v / 4096) 64 ltac:(discriminate)) as E2.
  rewrite N.Div0.div_div in E1. change (64 * 64) with 4096 in E1.
  rewrite N.Div0.div_div in E2. change (4096 * 64) with 262144 in E2.
  pose proof (mod_64 v) as R0. pose proof (mod_64 (v / 64)) as R1.
  pose proof (mod_64 (v / 4096)) as R2.
  set (r0 := v mod 64) in *. set (r1 := (v / 64) mod 64) in *.
  set (r2 := (v / 4096) mod 64) in *.
  set (q1 := v / 64) in *. set (q2 := v / 4096) in *. set (q3 := v / 262144) in *.
  clearbody r0 r1 r2 q1 q2 q3.
  assert (Hcont : forall r, r < 64 -> continuation (128 + r) = true).
  { intros r Hr. unfold continuation. apply andb_true_iff.
    split; [apply N.leb_le | apply N.ltb_lt]; lia. }
  destruct (N.ltb_spec v 128) as [H1 | H1].
  { cbn [app utf8_decode]. destruct (N.ltb_spec v 128); [reflexivity | lia]. }
  destruct (N.ltb_spec v 2048) as [H2 | H2].
  { cbn [app utf8_decode]. rewrite (Hcont r0 R0). cbn [negb].
    destruct (N.ltb_spec (192 + q1) 128); [lia |].
    destruct (N.ltb_spec (192 + q1) 192); [lia |].
    destruct (N.ltb_spec (192 + q1) 224); [| lia].
    replace ((192 + q1 - 192) * 64 + (128 + r0 - 128)) with v by lia.
    reflexivity. }
  destruct (N.ltb_spec v 65536) as [H3 | H3].
  { cbn [app utf8_decode]. rewrite (Hcont r0 R0), (Hcont r1 R1). cbn [negb].
    destruct (N.ltb_spec (224 + q2) 128); [lia |].
    destruct (N.ltb_spec (224 + q2) 192); [lia |].
    destruct (N.ltb_spec (224 + q2) 224); [lia |].
    destruct (N.ltb_spec (224 + q2) 240); [| lia].
    replace ((224 + q2 - 224) * 4096 + (128 + r1 - 128) * 64 + (128 + r0 - 128))
      with v by lia.
    reflexivity. }
  cbn [app utf8_decode]. rewrite (Hcont r0 R0), (Hcont r1 R1), (Hcont r2 R2).
  cbn [negb].
  destruct (N.ltb_spec (240 + q3) 128); [lia |].
  destruct (N.ltb_spec (240 + q3) 192); [lia |].
  destruct (N.ltb_spec (240 + q3) 224); [lia |].
  destruct (N.ltb_spec (240 + q3) 240); [lia |].
  destruct (N.ltb_spec (240 + q3) 248); [| lia].
  replace ((240 + q3 - 240) * 262144 + (128 + r2 - 128) * 4096
           + (128 + r1 - 128) * 64 + (128 + r0 - 128)) with v by lia.
  reflexivity.
Qed.

Lemma utf8_decode_UTF8 s :
  Forall code_unit s -> utf8_decode (UTF8 s) = Some (scalar_values s).
Proof.
  intros Hs. apply scalar_values_range in Hs. unfold UTF8.
  induction Hs as [| v vs Hv _ IH]; [reflexivity |].
  cbn [flat_map]. rewrite (utf8_decode_bytes v _ Hv), IH. reflexivity.
Qed.

(** C8.  The password digest is the SHA-256 of the UTF-8 encoding of the
    password, each of its 32 bytes written as two lowercase hexadecimal
    digits, 64 characters in all.  The bytes hashed are those of the
    encoder of the platform; for a string of 16-bit code units they are
    the UTF-8 form of its scalar values as the Unicode standard lays the
    bits out (a lone surrogate read as U+FFFD), they are bytes, and a
    UTF-8 decoder reads the scalar values back from them.  The digest of
    the empty string is
    e3b0c44298fc1c149afbf4c8996fb92427ae41e4649b934ca495991b7852b855;
    the digests of abc and of the two-block message of FIPS 180-4, of a
    password of two-, three- and four-byte characters and of a lone
    surrogate are the published or independently computed ones. *)
Theorem hashPassword_sha256_hex password :
  hashPassword password
  = concat (map hex2 (SHA256.digest (TextEncoder_encode password)))
  /\ (Forall code_unit password ->
        TextEncoder_encode password = UTF8 password
        /\ Forall (fun b => b < 256) (TextEncoder_encode password)
        /\ utf8_decode (TextEncoder_encode password)
           = Some (scalar_values password)
        /\ hashPassword password
           = concat (map hex2 (SHA256.digest (UTF8 password))))
  /\ length (hashPassword password) = 64%nat
  /\ Forall is_lower_hex (hashPassword password)
  /\ hashPassword []
     = js "e3b0c44298fc1c149afbf4c8996fb92427ae41e4649b934ca495991b7852b855"
  /\ hashPassword (js "abc")
     = js "ba7816bf8f01cfea414140de5dae2223b00361a396177a9cb410ff61f20015ad"
  /\ hashPassword (js "abcdbcdecdefdefgefghfghighijhijkijkljklmklmnlmnomnopnopq")
     = js "248d6a61d20638b8e5c026930c3e6039a33ce45964ff2167f6ecedd419db06c1"
  /\ TextEncoder_encode accented_password
     = [195; 169; 226; 130; 172; 240; 159; 152; 128]
  /\ hashPassword accented_password
     = js "df9226927fd572c1ee66eec85de1bb139497614899f36e4e90474cb71f6ef9d0"
  /\ TextEncoder_encode lone_surrogate = [239; 191; 189]
  /\ hashPassword lone_surrogate
     = js "83d544ccc223c057d2bf80d3f2a32982c32c3c0db8e2674820da5064783fb097".
Proof.
  assert (Hhex : hashPassword password
                 = concat (map hex2 (SHA256.digest (TextEncoder_encode password)))
                 /\ length (hashPassword password) = 64%nat
                 /\ Forall is_lower_hex (hashPassword password)).
  { unfold hashPassword. unfold SHA256.digest.
    set (h := SHA256.blocks _ _ _).
    destruct (concat_hex_bytes (SHA256.digest_bytes h) (digest_bytes_range h))
      as (Heq & Hlen & Hhex).
    rewrite Heq, Hlen, digest_bytes_length. auto. }
  destruct Hhex as (Heq & Hlen & Hhex).
  split; [exact Heq |]. split.
  { intros Hunits. rewrite Heq, (TextEncoder_encode_UTF8 password Hunits).
    split; [reflexivity |]. split; [apply UTF8_range; assumption |].
    split; [apply utf8_decode_UTF8; assumption | reflexivity]. }
  split; [exact Hlen |]. split; [exact Hhex |].
  repeat split; vm_compute; reflexivity.
Qed.

Lemma hashPassword_sha256_hex_witness :
  Forall code_unit accented_password
  /\ TextEncoder_encode accented_password = UTF8 accented_password
  /\ utf8_decode (TextEncoder_encode accented_password)
     = Some [233; 8364; 128512].
Proof.
  assert (Hunits : Forall code_unit accented_password)
    by (repeat constructor).
  split; [exact Hunits |].
  destruct (hashPassword_sha256_hex accented_password) as (_ & Hutf8 & _).
  destruct (Hutf8 Hunits) as (Henc & _ & Hdec & _).
  split; [exact Henc | exact Hdec].
Defined.

(** ** Escaping *)

Lemma replaceAll_app pat rep a b :
  replaceAll pat rep (a ++ b) = replaceAll pat rep a ++ replaceAll pat rep b.
Proof. unfold replaceAll. apply flat_map_app. Qed.

Lemma escapeHtml_app a b : escapeHtml (a ++ b) = escapeHtml a ++ escapeHtml b.
Proof. unfold escapeHtml. rewrite !replaceAll_app. reflexivity. Qed.

Lemma escapeHtml_unit c : escapeHtml [c] = entity c.
Proof.
  unfold entity.
  destruct (c =? 38) eqn:E1; [apply N.eqb_eq in E1; subst; reflexivity |].
  destruct (c =? 60) eqn:E2; [apply N.eqb_eq in E2; subst; reflexivity |].
  destruct (c =? 62) eqn:E3; [apply N.eqb_eq in E3; subst; reflexivity |].
  destruct (c =? 34) eqn:E4; [apply N.eqb_eq in E4; subst; reflexivity |].
  unfold escapeHtml, replaceAll. cbn [flat_map app].
  rewrite E1. cbn [flat_map app]. rewrite E2. cbn [flat_map app].
  rewrite E3. cbn [flat_map app]. rewrite E4. reflexivity.
Qed.

Lemma escapeHtml_cons c s : escapeHtml (c :: s) = entity c ++ escapeHtml s.
Proof.
  change (c :: s) with ([c] ++ s). rewrite escapeHtml_app, escapeHtml_unit.
  reflexivity.
Qed.

Lemma entity_plain c : is_markup c = false -> entity c = [c].
Proof.
  unfold is_markup, entity. intros H.
  apply orb_false_iff in H as [H H4]. apply orb_false_iff in H as [H H3].
  apply orb_false_iff in H as [H1 H2]. rewrite H1, H2, H3, H4. reflexivity.
Qed.

Lemma entity_markup c :
  is_markup c = true ->
  exists l r, entity c = 38 :: l :: r /\ is_markup l = false
              /\ (forall c', is_markup c' = true -> c' <> c ->
                    forall l' r', entity c' = 38 :: l' :: r' -> l' <> l).
Proof.
  unfold is_markup. intros H.
  assert (c = 38 \/ c = 60 \/ c = 62 \/ c = 34) as Hc.
  { rewrite !orb_true_iff, !N.eqb_eq in H. tauto. }
  assert (Hall : forall c', (c' =? 38) || (c' =? 60) || (c' =? 62) || (c' =? 34) = true ->
                   c' = 38 \/ c' = 60 \/ c' = 62 \/ c' = 34).
  { intros c' H'. rewrite !orb_true_iff, !N.eqb_eq in H'. tauto. }
  destruct Hc as [-> | [-> | [-> | ->]]]; eexists _, _;
    (split; [reflexivity |]); (split; [reflexivity |]);
    intros c' Hm Hne l' r' He; apply Hall in Hm;
    destruct Hm as [-> | [-> | [-> | ->]]]; try congruence;
    injection He as <- _; discriminate.
Qed.

Lemma entity_clean c :
  Forall (fun x => x <> 60 /\ x <> 62 /\ x <> 34) (entity c).
Proof.
  unfold entity.
  destruct (c =? 38) eqn:E1; [repeat constructor; discriminate |].
  destruct (c =? 60) eqn:E2; [repeat constructor; discriminate |].
  destruct (c =? 62) eqn:E3; [repeat constructor; discriminate |].
  destruct (c =? 34) eqn:E4; [repeat constructor; discriminate |].
  apply N.eqb_neq in E2, E3, E4. repeat constructor; assumption.
Qed.

Lemma escapeHtml_clean s :
  Forall (fun x => x <> 60 /\ x <> 62 /\ x <> 34) (escapeHtml s).
Proof.
  induction s as [| c s IH]; [constructor |].
  rewrite escapeHtml_cons. apply Forall_app. split; [apply entity_clean | exact IH].
Qed.

(** X1.  The four replacements of [escapeHtml], made one after the
    other, amount to writing each code unit as its entity, once: the
    ampersands of the entities are not escaped again.  The result holds
    no less-than, greater-than or double quote, and a text without the
    four characters is returned as it is. *)
Theorem escapeHtml_entities s :
  escapeHtml s = flat_map entity s
  /\ Forall (fun x => x <> 60 /\ x <> 62 /\ x <> 34) (escapeHtml s)
  /\ (forallb (fun c => negb (is_markup c)) s = true -> escapeHtml s = s).
Proof.
  split; [| split].
  - induction s as [| c s IH]; [reflexivity |].
    rewrite escapeHtml_cons, IH. reflexivity.
  - apply escapeHtml_clean.
  - induction s as [| c s IH]; [reflexivity |].
    cbn [forallb]. intros H. apply andb_true_iff in H as [Hc Hs].
    apply negb_true_iff in Hc.
    rewrite escapeHtml_cons, entity_plain, IH by assumption. reflexivity.
Qed.

Lemma escapeHtml_entities_witness :
  forallb (fun c => negb (is_markup c)) (js "it's fine") = true
  /\ escapeHtml (js "it's fine") = js "it's fine".
Proof.
  split; [reflexivity |].
  apply (escapeHtml_entities (js "it's fine")). reflexivity.
Defined.

(** X2.  [escapeHtml] loses nothing: two texts with the same escaped
    form are the same text. *)
Theorem escapeHtml_injective a b : escapeHtml a = escapeHtml b -> a = b.
Proof.
  revert b. induction a as [| c a IH]; intros b H.
  - destruct b as [| d b]; [reflexivity |].
    rewrite escapeHtml_cons in H. unfold entity in H.
    destruct (d =? 38), (d =? 60), (d =? 62), (d =? 34); discriminate.
  - destruct b as [| d b].
    + rewrite escapeHtml_cons in H. unfold entity in H.
      destruct (c =? 38), (c =? 60), (c =? 62), (c =? 34); discriminate.
    + rewrite !escapeHtml_cons in H.
      destruct (is_markup c) eqn:Hc, (is_markup d) eqn:Hd.
      * destruct (N.eq_dec d c) as [-> | Hne].
        -- apply app_inv_head in H. f_equal. apply IH. assumption.
        -- exfalso.
           destruct (entity_markup c Hc) as (l & r & He & _ & Hdiff).
           destruct (entity_markup d Hd) as (l' & r' & He' & _ & _).
           rewrite He, He' in H. injection H as Hl _.
           apply (Hdiff d Hd Hne l' r' He'). symmetry. assumption.
      * exfalso. destruct (entity_markup c Hc) as (l & r & He & _ & _).
        rewrite He, (entity_plain d Hd) in H. injection H as <- _. discriminate.
      * exfalso. destruct (entity_markup d Hd) as (l & r & He & _ & _).
        rewrite He, (entity_plain c Hc) in H. injection H as -> _. discriminate.
      * rewrite (entity_plain c Hc), (entity_plain d Hd) in H.
        injection H as -> H. f_equal. apply IH. assumption.
Qed.

Lemma escapeHtml_injective_witness :
  escapeHtml (js "a<b") = escapeHtml (js "a<b") /\ js "a<b" = js "a<b".
Proof.
  split; [reflexivity |]. apply escapeHtml_injective. reflexivity.
Defined.

(** ** What the handlers change *)

Lemma as_session_inv v me : as_session v = Some me -> v = session_to_json me.
Proof.
  destruct v as [| | | | | [| [k [| | | u | |]] [|]]]; try discriminate.
  cbn [as_session]. destruct (jsstring_eqb k (js "username")) eqn:Hk; [| discriminate].
  apply jsstring_eqb_eq in Hk. intros H. injection H as <-. subst k. reflexivity.
Qed.

Lemma existsb_exact_true (users : list user) to_ :
  existsb (fun u => jsstring_eqb (username u) to_) users = true <->
  exists u, In u users /\ username u = to_.
Proof.
  rewrite existsb_exists. split; intros (u & Hin & H); exists u;
    (split; [assumption |]); apply jsstring_eqb_eq; assumption.
Qed.

Lemma existsb_same_name_none toLowerCase (users : list user) name :
  existsb (fun u => same_name toLowerCase (username u) name) users = false <->
  forall u, In u users -> same_name toLowerCase (username u) name = false.
Proof.
  split.
  - intros H u Hin. destruct (same_name toLowerCase (username u) name) eqn:Hs;
      [| reflexivity].
    assert (existsb (fun u => same_name toLowerCase (username u) name) users = true)
      by (apply existsb_exists; eauto).
    congruence.
  - intros H. destruct (existsb _ users) eqn:Hex; [| reflexivity].
    apply existsb_exists in Hex as (u & Hin & Hs). rewrite (H u Hin) in Hs. discriminate.
Qed.

(** A successful send, taken apart. *)
Lemma send_sent_inv to_ txt now s s' :
  btnSend_click to_ txt now s = Some (Sent, s') ->
  exists me users msgs,
    currentUser s = session_to_json me /\ to_ <> [] /\ to_ <> me
    /\ trim txt <> [] /\ directory s = Some users
    /\ (exists u, In u users /\ username u = to_)
    /\ message_log s = Some msgs
    /\ s' = State (saveMessages (msgs ++ [Message me to_ (trim txt) now])
                     (localStorage s)) (currentUser s) (Some to_).
Proof.
  intros H. unfold btnSend_click in H.
  destruct (negb (ToBoolean (currentUser s))); [discriminate |].
  destruct (is_empty to_) eqn:Hto; [discriminate |].
  destruct (as_session (currentUser s)) as [me |] eqn:Hme; [| discriminate].
  destruct (jsstring_eqb to_ me) eqn:Hself; [discriminate |].
  destruct (is_empty (trim txt)) eqn:Htxt; [discriminate |].
  destruct (as_users (loadUsers (localStorage s))) as [users |] eqn:Hd; [| discriminate].
  destruct (existsb _ users) eqn:Hex; [| discriminate]. cbn [negb] in H.
  destruct (as_messages (loadMessages (localStorage s))) as [msgs |] eqn:Hl;
    [| discriminate].
  injection H as <-. exists me, users, msgs.
  apply as_session_inv in Hme. apply is_empty_false in Hto, Htxt.
  apply jsstring_eqb_neq in Hself. apply existsb_exact_true in Hex.
  repeat split; assumption || reflexivity.
Qed.

(** A send that does not succeed leaves the page as it is. *)
Lemma send_unsent to_ txt now s o s' :
  btnSend_click to_ txt now s = Some (o, s') -> o <> Sent -> s' = s.
Proof.
  intros Hstep Ho. unfold btnSend_click in Hstep.
  destruct (negb (ToBoolean (currentUser s))); [injection Hstep as <- <-; reflexivity |].
  destruct (is_empty to_); [injection Hstep as <- <-; reflexivity |].
  destruct (as_session (currentUser s)) as [me |]; [| discriminate].
  destruct (jsstring_eqb to_ me); [injection Hstep as <- <-; reflexivity |].
  destruct (is_empty (trim txt)); [injection Hstep as <- <-; reflexivity |].
  destruct (as_users _) as [users |]; [| discriminate].
  destruct (negb (existsb _ users)); [injection Hstep as <- <-; reflexivity |].
  destruct (as_messages _) as [msgs |]; [| discriminate].
  injection Hstep as <- <-. congruence.
Qed.

(** X3.  Sending succeeds exactly when a user is logged in, the
    recipient is not empty, is not the sender and is the username of a
    record of the directory, and the text is not empty after trimming.
    It then appends one record to the end of the log (the sender, the
    recipient, the trimmed text, the time) and selects the recipient as
    peer; the directory and the session stay as they are. *)
Theorem send_appends to_ txt now s :
  ((exists s', btnSend_click to_ txt now s = Some (Sent, s')) <->
   exists me users msgs,
     currentUser s = session_to_json me /\ to_ <> [] /\ to_ <> me
     /\ trim txt <> [] /\ directory s = Some users
     /\ (exists u, In u users /\ username u = to_)
     /\ message_log s = Some msgs)
  /\ (forall s', btnSend_click to_ txt now s = Some (Sent, s') ->
        exists me msgs,
          currentUser s = session_to_json me /\ message_log s = Some msgs
          /\ message_log s' = Some (msgs ++ [Message me to_ (trim txt) now])
          /\ directory s' = directory s
          /\ currentUser s' = currentUser s
          /\ loadCurrentUser (localStorage s') = loadCurrentUser (localStorage s)
          /\ selectedPeer s' = Some to_).
Proof.
  split; [split |].
  - intros (s' & H). destruct (send_sent_inv to_ txt now s s' H) as (me & users & msgs & H').
    exists me, users, msgs. tauto.
  - intros (me & users & msgs & Hcu & Hto & Hme & Htxt & Hd & Hu & Hl).
    rewrite (send_logged_in me to_ txt now s Hcu Hto).
    apply jsstring_eqb_neq in Hme. apply is_empty_false in Htxt.
    apply existsb_exact_true in Hu.
    rewrite Hme, Htxt, Hd, Hu, Hl. cbn [negb]. eauto.
  - intros s' H.
    destruct (send_sent_inv to_ txt now s s' H)
      as (me & users & msgs & Hcu & _ & _ & _ & _ & _ & Hl & ->).
    exists me, msgs. repeat split; try assumption; read_store; reflexivity.
Qed.

(** X4.  Registering succeeds exactly when the username is not empty
    after trimming, the password is not empty and no record of the
    directory has the same name up to case.  It then appends one record
    to the end of the directory (the trimmed name, the digest of the
    password, the time), the records before it in their order; the
    message log, the session and the selected peer stay as they are. *)
Theorem register_appends toLowerCase name pw now s :
  ((exists s', btnRegister_click toLowerCase name pw now s = Some (Registered, s')) <->
   exists users,
     directory s = Some users /\ trim name <> [] /\ pw <> []
     /\ forall u, In u users -> same_name toLowerCase (username u) (trim name) = false)
  /\ (forall s', btnRegister_click toLowerCase name pw now s = Some (Registered, s') ->
        exists users,
          directory s = Some users
          /\ directory s' = Some (users ++ [User (trim name) (hashPassword pw) now])
          /\ message_log s' = message_log s
          /\ currentUser s' = currentUser s
          /\ loadCurrentUser (localStorage s') = loadCurrentUser (localStorage s)
          /\ selectedPeer s' = selectedPeer s).
Proof.
  assert (Hfwd : forall s',
            btnRegister_click toLowerCase name pw now s = Some (Registered, s') ->
            exists users,
              directory s = Some users /\ trim name <> [] /\ pw <> []
              /\ (forall u, In u users ->
                    same_name toLowerCase (username u) (trim name) = false)
              /\ s' = State (saveUsers (users ++ [User (trim name) (hashPassword pw) now])
                               (localStorage s)) (currentUser s) (selectedPeer s)).
  { intros s' H. unfold btnRegister_click in H.
    destruct (is_empty (trim name) || is_empty pw) eqn:Hg; [discriminate |].
    apply orb_false_iff in Hg as [Hn Hp].
    destruct (as_users (loadUsers (localStorage s))) as [users |] eqn:Hd; [| discriminate].
    destruct (existsb _ users) eqn:Hex; [discriminate |].
    injection H as <-. exists users.
    apply is_empty_false in Hn, Hp.
    rewrite (existsb_same_name_none toLowerCase users (trim name)) in Hex.
    repeat split; assumption || reflexivity. }
  split; [split |].
  - intros (s' & H). destruct (Hfwd s' H) as (users & H'). exists users. tauto.
  - intros (users & Hd & Hn & Hp & Hnone).
    rewrite (register_past_guard toLowerCase name pw now s users Hn Hp Hd).
    apply existsb_same_name_none in Hnone. rewrite Hnone. eauto.
  - intros s' H. destruct (Hfwd s' H) as (users & Hd & _ & _ & _ & ->).
    exists users. repeat split; try assumption; read_store; reflexivity.
Qed.

(** X5.  A handler that gives up changes nothing: with any of the
    failure answers, the store, the session and the selected peer are
    what they were before the event. *)
Theorem failure_changes_nothing toLowerCase e s o s' :
  step toLowerCase e s = Some (o, s') -> is_failure o = true -> s' = s.
Proof.
  intros Hstep Hfail.
  assert (Hsel : forall n, selectPeer n s = Some (o, s') -> s' = s).
  { intros n H. unfold selectPeer in H.
    destruct (negb (ToBoolean (currentUser s))); [injection H as <- <-; reflexivity |].
    destruct (as_session (currentUser s)) as [me |]; [| discriminate].
    destruct (jsstring_eqb n me); injection H as <- <-; [reflexivity | discriminate]. }
  destruct e as [u p now | u p | | r m now | n | v |]; cbn [step] in Hstep.
  - unfold btnRegister_click in Hstep.
    destruct (_ || _); [injection Hstep as <- <-; reflexivity |].
    destruct (as_users _) as [users |]; [| discriminate].
    destruct (existsb _ users); injection Hstep as <- <-; [reflexivity | discriminate].
  - unfold btnLogin_click in Hstep.
    destruct (_ || _); [injection Hstep as <- <-; reflexivity |].
    destruct (as_users _) as [users |]; [| discriminate].
    destruct (authenticate _ _ _ _); injection Hstep as <- <-;
      [reflexivity | discriminate].
  - injection Hstep as <- <-. discriminate.
  - unfold btnSend_click in Hstep.
    destruct (negb (ToBoolean (currentUser s))); [injection Hstep as <- <-; reflexivity |].
    destruct (is_empty r); [injection Hstep as <- <-; reflexivity |].
    destruct (as_session (currentUser s)) as [me |]; [| discriminate].
    destruct (jsstring_eqb r me); [injection Hstep as <- <-; reflexivity |].
    destruct (is_empty (trim m)); [injection Hstep as <- <-; reflexivity |].
    destruct (as_users _) as [users |]; [| discriminate].
    destruct (negb (existsb _ users)); [injection Hstep as <- <-; reflexivity |].
    destruct (as_messages _) as [msgs |]; [| discriminate].
    injection Hstep as <- <-. discriminate.
  - apply (Hsel n). assumption.
  - unfold recipientSelect_change in Hstep. destruct (negb (is_empty v)).
    + apply (Hsel v). assumption.
    + injection Hstep as <- <-. discriminate.
  - injection Hstep as <- <-. discriminate.
Qed.

Lemma step_frame toLowerCase e s o s' k :
  step toLowerCase e s = Some (o, s') -> ~ In k (writes e) ->
  getItem (localStorage s') k = getItem (localStorage s) k.
Proof.
  intros Hstep Hk.
  assert (Hsel : forall n, selectPeer n s = Some (o, s') ->
            localStorage s' = localStorage s).
  { intros n H. unfold selectPeer in H.
    destruct (negb (ToBoolean (currentUser s))); [injection H as <- <-; reflexivity |].
    destruct (as_session (currentUser s)) as [me |]; [| discriminate].
    destruct (jsstring_eqb n me); injection H as <- <-; reflexivity. }
  destruct e as [u p now | u p | | r m now | n | v |]; cbn [step writes In] in *.
  - unfold btnRegister_click in Hstep.
    destruct (_ || _); [injection Hstep as <- <-; reflexivity |].
    destruct (as_users _) as [users |]; [| discriminate].
    destruct (existsb _ users); injection Hstep as <- <-; [reflexivity |].
    cbn [localStorage]. unfold saveUsers, getItem, setItem.
    apply lookup_insert_ne. tauto.
  - unfold btnLogin_click in Hstep.
    destruct (_ || _); [injection Hstep as <- <-; reflexivity |].
    destruct (as_users _) as [users |]; [| discriminate].
    destruct (authenticate _ _ _ _); injection Hstep as <- <-; [reflexivity |].
    cbn [localStorage saveCurrentUser ToBoolean session_to_json].
    unfold getItem, setItem. apply lookup_insert_ne. tauto.
  - injection Hstep as <- <-.
    cbn [localStorage saveCurrentUser ToBoolean].
    unfold getItem, removeItem. apply lookup_delete_ne. tauto.
  - unfold btnSend_click in Hstep.
    destruct (negb (ToBoolean (currentUser s))); [injection Hstep as <- <-; reflexivity |].
    destruct (is_empty r); [injection Hstep as <- <-; reflexivity |].
    destruct (as_session (currentUser s)) as [me |]; [| discriminate].
    destruct (jsstring_eqb r me); [injection Hstep as <- <-; reflexivity |].
    destruct (is_empty (trim m)); [injection Hstep as <- <-; reflexivity |].
    destruct (as_users _) as [users |]; [| discriminate].
    destruct (negb (existsb _ users)); [injection Hstep as <- <-; reflexivity |].
    destruct (as_messages _) as [msgs |]; [| discriminate].
    injection Hstep as <- <-.
    cbn [localStorage]. unfold saveMessages, getItem, setItem.
    apply lookup_insert_ne. tauto.
  - rewrite (Hsel n Hstep). reflexivity.
  - unfold recipientSelect_change in Hstep. destruct (negb (is_empty v)).
    + rewrite (Hsel v Hstep). reflexivity.
    + injection Hstep as <- <-. reflexivity.
  - injection Hstep as <- <-. reflexivity.
Qed.

(** X6.  A handler writes no key of the store but its own: registering
    writes the users, logging in and out the session, sending the
    messages, and the other events nothing.  So the store of a page
    reached from a fresh profile holds nothing under any key but these
    three. *)
Theorem handlers_write_own_key toLowerCase :
  (forall e s o s' k,
      step toLowerCase e s = Some (o, s') -> ~ In k (writes e) ->
      getItem (localStorage s') k = getItem (localStorage s) k)
  /\ (forall h s k,
        reachable toLowerCase h s ->
        k <> LS_USERS_KEY -> k <> LS_MSGS_KEY -> k <> LS_CURRENT_KEY ->
        getItem (localStorage s) k = None).
Proof.
  split; [intros; eapply step_frame; eassumption |].
  intros h s k Hr Hu Hm Hc. induction Hr as [| h s e o s' Hr IH Hstep].
  - reflexivity.
  - rewrite (step_frame toLowerCase e s o s' k Hstep); [assumption |].
    destruct e; cbn [writes In]; intuition congruence.
Qed.

Lemma handlers_write_own_key_witness :
  getItem (localStorage (after alice_wrote)) LS_USERS_KEY
  = getItem (localStorage (after alice_logged_in)) LS_USERS_KEY
  /\ getItem (localStorage (after alice_wrote)) "theme" = None.
Proof.
  destruct (handlers_write_own_key toLowerCase_latin1) as [Hframe Hkeys].
  split.
  - apply (Hframe (ClickSend (js "Bob") (js " hello ") stamp3)
                  (after alice_logged_in) Sent).
    + vm_compute. reflexivity.
    + cbn [writes In]. intros [H | []]. discriminate.
  - apply (Hkeys (history_of alice_wrote)); [| discriminate ..].
    apply demo_reachable. apply alice_wrote_runs.
Defined.

(** ** What the store keeps *)

Lemma trimStart_idempotent s : trimStart (trimStart s) = trimStart s.
Proof.
  induction s as [| c r IH]; [reflexivity |]. cbn [trimStart].
  destruct (is_js_space c) eqn:Hc; [assumption |].
  cbn [trimStart]. rewrite Hc. reflexivity.
Qed.

Lemma trimStart_snoc l c :
  is_js_space c = false -> trimStart (l ++ [c]) = trimStart l ++ [c].
Proof.
  intros Hc. induction l as [| d l IH]; cbn [app trimStart].
  - rewrite Hc. reflexivity.
  - destruct (is_js_space d); [assumption | reflexivity].
Qed.

Lemma trimEnd_cons c r :
  is_js_space c = false -> trimEnd (c :: r) = c :: trimEnd r.
Proof.
  intros Hc. unfold trimEnd. cbn [rev].
  rewrite trimStart_snoc by assumption. rewrite rev_app_distr. reflexivity.
Qed.

Lemma trimEnd_idempotent s : trimEnd (trimEnd s) = trimEnd s.
Proof. unfold trimEnd. rewrite rev_involutive, trimStart_idempotent. reflexivity. Qed.

Lemma trimStart_head s :
  trimStart s = [] \/ exists c r, trimStart s = c :: r /\ is_js_space c = false.
Proof.
  induction s as [| c r IH]; [left; reflexivity |]. cbn [trimStart].
  destruct (is_js_space c) eqn:Hc; [assumption |]. right. eauto.
Qed.

(** [trim] leaves a trimmed string as it is. *)
Lemma trim_idempotent s : trim (trim s) = trim s.
Proof.
  unfold trim. destruct (trimStart_head s) as [-> | (c & r & -> & Hc)].
  - reflexivity.
  - rewrite trimEnd_cons by assumption. cbn [trimStart]. rewrite Hc.
    rewrite <- trimEnd_cons by assumption. apply trimEnd_idempotent.
Qed.

Lemma hashPassword_hex password :
  length (hashPassword password) = 64%nat /\ Forall is_lower_hex (hashPassword password).
Proof.
  unfold hashPassword, SHA256.digest.
  set (h := SHA256.blocks _ _ _).
  destruct (concat_hex_bytes (SHA256.digest_bytes h) (digest_bytes_range h))
    as (Heq & Hlen & Hhex).
  rewrite Heq, Hlen, digest_bytes_length. split; [reflexivity | assumption].
Qed.

Section Kept.

Variable toLowerCase : jsstring -> jsstring.

(** X7.  On every page reached from a fresh profile, each record of the
    directory has a username that is not empty and has no white space at
    either end, and a passwordHash of 64 lowercase hexadecimal digits. *)
Theorem directory_well_formed h s :
  reachable toLowerCase h s ->
  exists users, directory s = Some users /\ Forall well_formed_user users.
Proof.
  intros Hr. apply reachable_consistent in Hr as [Hd _ Hne _ _ _].
  exists (registered h). split; [assumption |].
  rewrite List.Forall_forall in *. intros u Hu.
  specialize (Hne u Hu).
  apply in_registered in Hu as (n & p & now & _ & ->).
  cbn [username passwordHash] in *.
  destruct (hashPassword_hex p) as [Hlen Hhex].
  repeat split; try assumption. apply trim_idempotent.
Qed.

(** What one event does to the message log. *)
Lemma step_log h s e o s' :
  consistent toLowerCase h s ->
  step toLowerCase e s = Some (o, s') ->
  message_log s' = message_log s
  \/ exists me to_ txt now msgs u,
       e = ClickSend to_ txt now /\ o = Sent
       /\ currentUser s = session_to_json me
       /\ message_log s = Some msgs
       /\ message_log s' = Some (msgs ++ [Message me to_ (trim txt) now])
       /\ In u (registered h) /\ username u = to_ /\ trim txt <> [].
Proof.
  intros Hc Hstep.
  assert (Hsel : forall n, selectPeer n s = Some (o, s') ->
            message_log s' = message_log s).
  { intros n H. unfold selectPeer in H.
    destruct (negb (ToBoolean (currentUser s))); [injection H as <- <-; reflexivity |].
    destruct (as_session (currentUser s)) as [me |]; [| discriminate].
    destruct (jsstring_eqb n me); injection H as <- <-; reflexivity. }
  destruct e as [u p now | u p | | r m now | n | v |]; cbn [step] in Hstep.
  - left. unfold btnRegister_click in Hstep.
    destruct (_ || _); [injection Hstep as <- <-; reflexivity |].
    destruct (as_users _) as [users |]; [| discriminate].
    destruct (existsb _ users); injection Hstep as <- <-; [reflexivity |].
    read_store. reflexivity.
  - left. unfold btnLogin_click in Hstep.
    destruct (_ || _); [injection Hstep as <- <-; reflexivity |].
    destruct (as_users _) as [users |]; [| discriminate].
    destruct (authenticate _ _ _ _); injection Hstep as <- <-; [reflexivity |].
    read_store. reflexivity.
  - left. injection Hstep as <- <-. read_store. reflexivity.
  - assert (Hdec : o = Sent \/ o <> Sent) by (destruct o; auto; right; discriminate).
    destruct Hdec as [-> | Ho];
      [| left; rewrite (send_unsent r m now s o s' Hstep Ho); reflexivity].
    right.
    destruct (send_sent_inv r m now s s' Hstep)
      as (me & users & msgs & Hcu & _ & _ & Htxt & Hd & (u & Hu & Hname) & Hl & ->).
    rewrite (directory_registered _ _ _ Hc) in Hd. injection Hd as <-.
    exists me, r, m, now, msgs, u. repeat split; try assumption.
    read_store. reflexivity.
  - left. apply (Hsel n). assumption.
  - left. unfold recipientSelect_change in Hstep. destruct (negb (is_empty v)).
    + apply (Hsel v). assumption.
    + injection Hstep as <- <-. reflexivity.
  - left. injection Hstep as <- <-. reflexivity.
Qed.

End Kept.

(** ** The log over a history *)

Section Log.

Variable toLowerCase : jsstring -> jsstring.
Variable Date_ms : jsstring -> option Z.

Lemma registered_concat h h' : registered (h ++ h') = registered h ++ registered h'.
Proof. unfold registered. apply flat_map_app. Qed.

Lemma run_consistent es : forall h s h' s',
  consistent toLowerCase h s ->
  run toLowerCase es s = Some (h', s') ->
  consistent toLowerCase (h ++ h') s'
  /\ exists msgs more,
       message_log s = Some msgs /\ message_log s' = Some (msgs ++ more).
Proof.
  induction es as [| e es IH]; intros h s h' s' Hc Hrun; cbn [run] in Hrun.
  - injection Hrun as <- <-. rewrite app_nil_r. split; [assumption |].
    destruct (log_readable _ _ _ Hc) as (msgs & Hl & _).
    exists msgs, []. rewrite app_nil_r. auto.
  - destruct (step toLowerCase e s) as [[o s1] |] eqn:Hstep; [| discriminate].
    destruct (run toLowerCase es s1) as [[h1 s2] |] eqn:Hrest; [| discriminate].
    injection Hrun as <- <-.
    pose proof (step_consistent toLowerCase h s e o s1 Hc Hstep) as Hc1.
    destruct (IH _ _ _ _ Hc1 Hrest) as (Hc2 & msgs1 & more1 & Hl1 & Hl2).
    split; [rewrite <- app_assoc in Hc2; exact Hc2 |].
    destruct (step_log toLowerCase h s e o s1 Hc Hstep)
      as [Hsame | (me & to_ & txt & now & msgs & u & _ & _ & _ & Hl & Hl' & _)].
    + exists msgs1, more1. rewrite <- Hsame. auto.
    + rewrite Hl' in Hl1. injection Hl1 as <-.
      exists msgs, ([Message me to_ (trim txt) now] ++ more1).
      rewrite app_assoc. auto.
Qed.

(** X8.  Nothing stored is ever removed or rewritten: after any further
    events, the directory and the message log of a page begin with the
    records they had, in the same order. *)
Theorem store_append_only h s es h' s' :
  reachable toLowerCase h s ->
  run toLowerCase es s = Some (h', s') ->
  exists users more_users msgs more_msgs,
    directory s = Some users /\ directory s' = Some (users ++ more_users)
    /\ message_log s = Some msgs /\ message_log s' = Some (msgs ++ more_msgs).
Proof.
  intros Hr Hrun. apply reachable_consistent in Hr.
  destruct (run_consistent es h s h' s' Hr Hrun) as (Hc & msgs & more & Hl & Hl').
  exists (registered h), (registered h'), msgs, more.
  rewrite <- registered_concat.
  repeat split; try assumption; [apply Hr | apply Hc].
Qed.

(** The names a message carries are names of the directory, and its text
    is not empty. *)
Lemma log_linked h s :
  reachable toLowerCase h s ->
  exists msgs,
    message_log s = Some msgs
    /\ Forall (fun m => In (from m) (map username (registered h))
                        /\ In (to m) (map username (registered h))
                        /\ text m <> []) msgs.
Proof.
  induction 1 as [| h s e o s' Hr (msgs & Hl & Hall) Hstep].
  - exists []. split; [reflexivity | constructor].
  - pose proof (reachable_consistent toLowerCase h s Hr) as Hc.
    assert (Hmore : Forall (fun m => In (from m) (map username (registered (h ++ [(e, o)])))
                             /\ In (to m) (map username (registered (h ++ [(e, o)])))
                             /\ text m <> []) msgs).
    { rewrite registered_concat, map_app.
      rewrite List.Forall_forall in *. intros m Hm.
      destruct (Hall m Hm) as (Hf & Ht & Hx).
      repeat split; try assumption; apply in_or_app; left; assumption. }
    destruct (step_log toLowerCase h s e o s' Hc Hstep)
      as [Hsame | (me & to_ & txt & now & msgs0 & u & _ & _ & Hcu & Hl0 & Hl' & Hu & Hname & Htxt)].
    + exists msgs. rewrite Hsame. auto.
    + rewrite Hl in Hl0. injection Hl0 as <-.
      exists (msgs ++ [Message me to_ (trim txt) now]). split; [assumption |].
      apply Forall_app. split; [assumption |]. constructor; [| constructor].
      cbn [from to text]. rewrite registered_concat, map_app.
      destruct (current_user_registered toLowerCase h s me Hr Hcu)
        as (_ & v & Hv & Hvn).
      repeat split; try assumption; apply in_or_app; left; apply in_map_iff; eauto.
Qed.

(** X9.  On every page reached from a fresh profile, the sender and the
    recipient of each stored message are usernames of records of the
    directory, spelled as stored, and its text is not empty; the user of
    the session, if any, is such a username too. *)
Theorem messages_reference_users h s :
  reachable toLowerCase h s ->
  exists users msgs,
    directory s = Some users /\ message_log s = Some msgs
    /\ Forall (fun m => In (from m) (map username users)
                        /\ In (to m) (map username users)
                        /\ text m <> []) msgs
    /\ (forall me, currentUser s = session_to_json me -> In me (map username users)).
Proof.
  intros Hr. destruct (log_linked h s Hr) as (msgs & Hl & Hall).
  exists (registered h), msgs.
  split; [apply (reachable_consistent toLowerCase h s Hr) |].
  split; [assumption |]. split; [assumption |].
  intros me Hcu.
  destruct (current_user_registered toLowerCase h s me Hr Hcu) as (_ & u & Hu & <-).
  apply in_map. assumption.
Qed.

Lemma in_conversation msgs me peer m :
  In m msgs -> between me peer m = true -> In m (conversation Date_ms msgs me peer).
Proof.
  intros Hm Hb. unfold conversation.
  apply (Permutation_in _ (Permutation_sym (Array_sort_perm (by_ts Date_ms) _))).
  apply filter_In. auto.
Qed.

Lemma registered_name_nonempty h s n :
  reachable toLowerCase h s -> In n (map username (registered h)) -> n <> [].
Proof.
  intros Hr Hn. apply reachable_consistent in Hr as [_ _ Hne _ _ _].
  apply in_map_iff in Hn as (u & <- & Hu).
  rewrite List.Forall_forall in Hne. apply Hne. assumption.
Qed.

(** X10.  A stored message is drawn for both of its users: on any page
    reached later, with its recipient logged in and its sender selected,
    or its sender logged in and its recipient selected, the conversation
    drawn holds the message. *)
Theorem message_delivered h s msgs m es h' s' :
  reachable toLowerCase h s ->
  message_log s = Some msgs -> In m msgs ->
  run toLowerCase es s = Some (h', s') ->
  (currentUser s' = session_to_json (to m) /\ selectedPeer s' = Some (from m))
  \/ (currentUser s' = session_to_json (from m) /\ selectedPeer s' = Some (to m)) ->
  exists l, renderMessages Date_ms s' = Some (Some l) /\ In m l.
Proof.
  intros Hr Hl Hm Hrun Hview.
  destruct (log_linked h s Hr) as (msgs0 & Hl0 & Hall).
  rewrite Hl in Hl0. injection Hl0 as <-.
  rewrite List.Forall_forall in Hall. destruct (Hall m Hm) as (Hf & Ht & _).
  apply (registered_name_nonempty h s _ Hr) in Hf, Ht.
  destruct (run_consistent es h s h' s' (reachable_consistent _ _ _ Hr) Hrun)
    as (_ & msgs1 & more & Hl1 & Hl').
  rewrite Hl in Hl1. injection Hl1 as <-.
  unfold message_log in Hl'. unfold renderMessages.
  destruct Hview as [[Hcu Hpeer] | [Hcu Hpeer]]; rewrite Hcu, Hpeer, Hl';
    cbn [ToBoolean session_to_json negb orb]; rewrite as_session_to_json.
  - destruct (from m) as [| c r] eqn:Hfrom; [congruence |]. cbn [peer_set negb].
    eexists. split; [reflexivity |]. apply in_conversation.
    + apply in_or_app. left. assumption.
    + unfold between. rewrite Hfrom, !jsstring_eqb_refl. apply orb_true_r.
  - destruct (to m) as [| c r] eqn:Hto; [congruence |]. cbn [peer_set negb].
    eexists. split; [reflexivity |]. apply in_conversation.
    + apply in_or_app. left. assumption.
    + unfold between. rewrite Hto, !jsstring_eqb_refl. reflexivity.
Qed.

Lemma filter_none {A} (p : A -> bool) l :
  (forall x, In x l -> p x = false) -> List.filter p l = [].
Proof.
  induction l as [| x l IH]; intros H; [reflexivity |]. cbn [List.filter].
  rewrite (H x (or_introl eq_refl)). apply IH. intros y Hy. apply H. right. assumption.
Qed.

(** X11.  Logging in keeps the selected peer, so a page can have its
    own user selected; the conversation it then draws is empty, as no
    stored message is from a user to himself. *)
Theorem own_conversation_empty h s me :
  reachable toLowerCase h s ->
  currentUser s = session_to_json me -> selectedPeer s = Some me ->
  renderMessages Date_ms s = Some (Some []).
Proof.
  intros Hr Hcu Hpeer.
  destruct (current_user_registered toLowerCase h s me Hr Hcu) as (Hne & _).
  destruct (log_readable _ _ _ (reachable_consistent _ _ _ Hr)) as (msgs & Hl & Hdiff).
  unfold message_log in Hl. unfold renderMessages.
  rewrite Hcu, Hpeer, Hl. cbn [ToBoolean session_to_json negb orb].
  rewrite as_session_to_json.
  destruct me as [| c r]; [congruence |]. cbn [peer_set negb].
  unfold conversation. rewrite filter_none; [reflexivity |].
  intros m Hm. rewrite List.Forall_forall in Hdiff. specialize (Hdiff m Hm).
  unfold between. rewrite orb_diag.
  destruct (jsstring_eqb (from m) (c :: r)) eqn:Hf; [| reflexivity].
  destruct (jsstring_eqb (to m) (c :: r)) eqn:Ht; [| reflexivity].
  apply jsstring_eqb_eq in Hf, Ht. congruence.
Qed.

Lemma NoDup_map_back {A B} (f : A -> B) (l : list A) :
  NoDup (map f l) -> NoDup l.
Proof.
  induction l as [| x l IH]; cbn [map]; intros H; [constructor |].
  apply NoDup_cons in H as [Hx Hl]. apply NoDup_cons. split; [| apply IH; assumption].
  intros Hin. apply Hx. apply list_elem_of_In. apply in_map.
  apply list_elem_of_In. assumption.
Qed.

(** X12.  The recipient list drawn by [renderUsers] has the placeholder
    and then the usernames of the directory, which are not empty and all
    different; sending a non-empty text to any listed name but one's own
    succeeds, so on a freshly drawn list 'Recipient does not exist.' is
    never the answer. *)
Theorem listed_recipient_accepted h s :
  reachable toLowerCase h s ->
  exists names,
    renderUsers s = Some (names, [] :: names)
    /\ Forall (fun v => v <> []) names /\ NoDup names
    /\ forall v me txt now,
         In v names -> currentUser s = session_to_json me -> v <> me ->
         trim txt <> [] ->
         exists s', btnSend_click v txt now s = Some (Sent, s').
Proof.
  intros Hr. pose proof (reachable_consistent _ _ _ Hr) as Hc.
  destruct Hc as [Hd Hnd Hne (msgs & Hl & _) _ _].
  exists (map username (registered h)). split; [| split; [| split]].
  - unfold renderUsers. unfold directory in Hd. rewrite Hd. reflexivity.
  - rewrite List.Forall_forall in *. intros v Hv.
    apply in_map_iff in Hv as (u & <- & Hu). apply Hne. assumption.
  - rewrite <- (map_map username toLowerCase) in Hnd.
    apply NoDup_map_back in Hnd. assumption.
  - intros v me txt now Hv Hcu Hme Htxt.
    assert (Hv' : v <> []).
    { apply (registered_name_nonempty h s v Hr). assumption. }
    rewrite (send_logged_in me v txt now s Hcu Hv').
    apply jsstring_eqb_neq in Hme. apply is_empty_false in Htxt.
    apply in_map_iff in Hv as (u & Hname & Hu).
    assert (Hex : existsb (fun u => jsstring_eqb (username u) v) (registered h) = true)
      by (apply existsb_exact_true; eauto).
    rewrite Hme, Htxt, Hd, Hex, Hl. cbn [negb]. eauto.
Qed.

End Log.

(** ** What the page draws *)

Lemma count_escapeHtml s c :
  c = 60 \/ c = 62 \/ c = 34 -> count_occ N.eq_dec (escapeHtml s) c = 0%nat.
Proof.
  intros Hc. apply count_occ_not_In. intros Hin.
  pose proof (escapeHtml_clean s) as Hclean.
  rewrite List.Forall_forall in Hclean. specialize (Hclean c Hin). lia.
Qed.

(** X13.  With a user logged in, the status line is the fixed text and
    the strong tag around the escaped username: whatever the username,
    the markup holds two less-than and two greater-than signs, those of
    the tag, and the logout button is shown. *)
Theorem status_line_markup s me :
  currentUser s = session_to_json me ->
  exists hd,
    renderHeader s = Some hd
    /\ status hd = js "Logged in as <strong>" ++ escapeHtml me ++ js "</strong>"
    /\ count_occ N.eq_dec (status hd) 60 = 2%nat
    /\ count_occ N.eq_dec (status hd) 62 = 2%nat
    /\ logout_display hd = js "inline-block".
Proof.
  intros Hcu. unfold renderHeader. rewrite Hcu.
  cbn [ToBoolean session_to_json negb]. rewrite as_session_to_json.
  assert (Hcount : forall c, c = 60 \/ c = 62 ->
            count_occ N.eq_dec
              (js "Logged in as <strong>" ++ escapeHtml me ++ js "</strong>") c = 2%nat).
  { intros c Hc. rewrite !count_occ_app, count_escapeHtml by tauto.
    destruct Hc as [-> | ->]; reflexivity. }
  destruct (peer_set (selectedPeer s)); eexists; cbn [status logout_display];
    (split; [reflexivity |]); (split; [reflexivity |]);
    (split; [apply Hcount; auto |]); (split; [apply Hcount; auto | reflexivity]).
Qed.

Lemma status_line_markup_witness :
  exists hd,
    renderHeader (State ∅ (session_to_json (js "<b>Eve</b>")) None) = Some hd
    /\ status hd = js "Logged in as <strong>&lt;b&gt;Eve&lt;/b&gt;</strong>".
Proof.
  destruct (status_line_markup (State ∅ (session_to_json (js "<b>Eve</b>")) None)
              (js "<b>Eve</b>") eq_refl) as (hd & Hhd & Hst & _).
  exists hd. split; [assumption |]. rewrite Hst. reflexivity.
Defined.

Section Drawn.

Variable Date_ms : jsstring -> option Z.

(** X14.  In the conversation drawn for a user with another user
    selected, each message is either one he sent to the peer, drawn with
    the class 'me', or one the peer sent to him, drawn with the class
    'them'; the markup of its body holds no less-than, greater-than or
    double quote. *)
Theorem drawn_mine_or_theirs msgs me peer m :
  me <> peer -> In m (conversation Date_ms msgs me peer) ->
  ((from m = me /\ to m = peer /\ message_class me m = js "me")
   \/ (from m = peer /\ to m = me /\ message_class me m = js "them"))
  /\ Forall (fun x => x <> 60 /\ x <> 62 /\ x <> 34) (message_body m).
Proof.
  intros Hne Hm. split; [| apply escapeHtml_clean].
  apply (Permutation_in _ (Array_sort_perm (by_ts Date_ms) _)) in Hm.
  apply filter_In in Hm as [_ Hb]. apply between_in_pair in Hb.
  unfold message_class.
  destruct Hb as [[Hf Ht] | [Hf Ht]].
  - left. rewrite Hf, jsstring_eqb_refl. auto.
  - right. rewrite Hf.
    assert (jsstring_eqb peer me = false) as -> by (apply jsstring_eqb_neq; congruence).
    auto.
Qed.

End Drawn.

Lemma drawn_mine_or_theirs_witness :
  message_class (js "alice") (Message (js "Bob") (js "alice") (js "second") stamp3)
  = js "them".
Proof.
  destruct (drawn_mine_or_theirs Date_ms_iso demo_log (js "alice") (js "Bob")
              (Message (js "Bob") (js "alice") (js "second") stamp3))
    as [[(Hf & _) | (_ & _ & Hclass)] _].
  - vm_compute. discriminate.
  - vm_compute. do 3 right. left. reflexivity.
  - vm_compute in Hf. discriminate.
  - exact Hclass.
Defined.

(** X15.  Logging out always succeeds and leaves the directory and the
    message log as they are.  On the page it gives, sending and
    selecting a peer answer that nobody is logged in, no conversation is
    drawn, a reload finds no session, and logging out again changes
    nothing. *)
Theorem logout_closes_session s :
  exists s',
    btnLogout_click s = Some (LoggedOut, s')
    /\ directory s' = directory s /\ message_log s' = message_log s
    /\ (forall r m now, btnSend_click r m now s' = Some (NotLoggedIn, s'))
    /\ (forall n, selectPeer n s' = Some (NotLoggedIn, s'))
    /\ (forall Date_ms, renderMessages Date_ms s' = Some None)
    /\ reload s' = s'
    /\ btnLogout_click s' = Some (LoggedOut, s').
Proof.
  eexists. split; [reflexivity |].
  split; [read_store; reflexivity |]. split; [read_store; reflexivity |].
  split; [reflexivity |]. split; [reflexivity |]. split; [reflexivity |]. split.
  - unfold reload. cbn [localStorage]. rewrite loadCurrentUser_cleared. reflexivity.
  - unfold btnLogout_click. cbn [localStorage saveCurrentUser ToBoolean].
    unfold removeItem. rewrite delete_delete_eq. reflexivity.
Qed.

(** X16.  What is saved is what is loaded: the records of the directory
    and of the log come back as saved, in their order, and the session
    with its username, whatever the code units of the strings; and a
    save under one key leaves what is read under the two others. *)
Theorem save_load_round_trip us ms name ls :
  as_users (loadUsers (saveUsers us ls)) = Some us
  /\ as_messages (loadMessages (saveMessages ms ls)) = Some ms
  /\ as_session (loadCurrentUser (saveCurrentUser (session_to_json name) ls)) = Some name
  /\ loadMessages (saveUsers us ls) = loadMessages ls
  /\ loadCurrentUser (saveUsers us ls) = loadCurrentUser ls
  /\ loadUsers (saveMessages ms ls) = loadUsers ls
  /\ loadCurrentUser (saveMessages ms ls) = loadCurrentUser ls
  /\ loadUsers (saveCurrentUser (session_to_json name) ls) = loadUsers ls
  /\ loadMessages (saveCurrentUser (session_to_json name) ls) = loadMessages ls
  /\ loadUsers (saveCurrentUser JNull ls) = loadUsers ls
  /\ loadMessages (saveCurrentUser JNull ls) = loadMessages ls.
Proof. repeat split; autorewrite with store; reflexivity. Qed.

(** X17.  With a user logged in, selecting another, non-empty name makes
    it the peer without touching the store, and the page then draws the
    conversation of the two; selecting one's own name is refused and
    leaves the page as it is. *)
Theorem select_draws_conversation Date_ms s me msgs n :
  currentUser s = session_to_json me -> message_log s = Some msgs ->
  n <> [] -> n <> me ->
  (exists s',
      selectPeer n s = Some (PeerSelected, s')
      /\ localStorage s' = localStorage s /\ currentUser s' = currentUser s
      /\ renderMessages Date_ms s' = Some (Some (conversation Date_ms msgs me n)))
  /\ selectPeer me s = Some (SelfPeer, s).
Proof.
  intros Hcu Hl Hn Hme. unfold selectPeer. rewrite Hcu.
  cbn [ToBoolean session_to_json negb]. rewrite as_session_to_json.
  rewrite jsstring_eqb_refl. split; [| reflexivity].
  apply jsstring_eqb_neq in Hme. rewrite Hme.
  eexists. split; [reflexivity |]. split; [reflexivity |]. split; [reflexivity |].
  unfold renderMessages. cbn [currentUser selectedPeer localStorage].
  unfold message_log in Hl. rewrite Hl.
  cbn [ToBoolean session_to_json negb orb]. rewrite as_session_to_json.
  destruct n; [congruence | reflexivity].
Qed.

Lemma select_draws_conversation_witness :
  exists s',
    selectPeer (js "Bob") (after alice_wrote) = Some (PeerSelected, s')
    /\ renderMessages Date_ms_iso s'
       = Some (Some (conversation Date_ms_iso
                       [Message (js "alice") (js "Bob") (js "hello") stamp3]
                       (js "alice") (js "Bob"))).
Proof.
  destruct (select_draws_conversation Date_ms_iso (after alice_wrote) (js "alice")
              [Message (js "alice") (js "Bob") (js "hello") stamp3] (js "Bob"))
    as [(s' & Hsel & _ & _ & Hdraw) _].
  - vm_compute. reflexivity.
  - vm_compute. reflexivity.
  - vm_compute. discriminate.
  - vm_compute. discriminate.
  - exists s'. split; assumption.
Defined.

(** ** The properties above on the sample histories *)

Lemma alice_logged_in_reachable :
  reachable toLowerCase_latin1 (history_of alice_logged_in) (after alice_logged_in).
Proof. apply demo_reachable. vm_compute. eexists. reflexivity. Qed.

Lemma alice_wrote_reachable :
  reachable toLowerCase_latin1 (history_of alice_wrote) (after alice_wrote).
Proof. apply demo_reachable. apply alice_wrote_runs. Qed.

Lemma send_appends_witness :
  exists s' me msgs,
    btnSend_click (js "Bob") (js " hello ") stamp3 (after alice_logged_in)
    = Some (Sent, s')
    /\ message_log s'
       = Some (msgs ++ [Message me (js "Bob") (trim (js " hello ")) stamp3]).
Proof.
  destruct (send_appends (js "Bob") (js " hello ") stamp3 (after alice_logged_in))
    as [[_ Hback] Heffect].
  destruct Hback as (s' & Hs').
  - exists (js "alice"),
      [User (js "Bob") (hashPassword (js "pw")) stamp1;
       User (js "alice") (hashPassword (js "secret")) stamp2], [].
    split; [vm_compute; reflexivity |].
    split; [vm_compute; discriminate |].
    split; [vm_compute; discriminate |].
    split; [vm_compute; discriminate |].
    split; [vm_compute; reflexivity |].
    split; [| vm_compute; reflexivity].
    eexists. split; [left; reflexivity | reflexivity].
  - destruct (Heffect s' Hs') as (me & msgs & _ & _ & Hlog & _).
    exists s', me, msgs. split; assumption.
Defined.

Lemma register_appends_witness :
  exists s' users,
    btnRegister_click toLowerCase_latin1 (js " Carol ") (js "c") stamp3 (after bob_only)
    = Some (Registered, s')
    /\ directory s'
       = Some (users ++ [User (trim (js " Carol ")) (hashPassword (js "c")) stamp3]).
Proof.
  destruct (register_appends toLowerCase_latin1 (js " Carol ") (js "c") stamp3
              (after bob_only)) as [[_ Hback] Heffect].
  destruct Hback as (s' & Hs').
  - exists [User (js "Bob") (hashPassword (js "pw")) stamp1].
    split; [vm_compute; reflexivity |].
    split; [vm_compute; discriminate |].
    split; [vm_compute; discriminate |].
    intros u [<- | []]. vm_compute. reflexivity.
  - destruct (Heffect s' Hs') as (users & _ & Hdir & _).
    exists s', users. split; assumption.
Defined.

Lemma failure_changes_nothing_witness :
  step toLowerCase_latin1 (ClickLogin (js "ghost") (js "x")) (after bob_only)
  = Some (UserNotFound, after bob_only)
  /\ after bob_only = after bob_only.
Proof.
  assert (Hstep : step toLowerCase_latin1 (ClickLogin (js "ghost") (js "x")) (after bob_only)
                  = Some (UserNotFound, after bob_only)) by (vm_compute; reflexivity).
  split; [exact Hstep |].
  apply (failure_changes_nothing toLowerCase_latin1 _ _ _ _ Hstep). reflexivity.
Defined.

Lemma directory_well_formed_witness :
  exists users,
    directory (after alice_logged_in) = Some users /\ Forall well_formed_user users.
Proof.
  apply (directory_well_formed toLowerCase_latin1 (history_of alice_logged_in)).
  apply alice_logged_in_reachable.
Defined.

Lemma store_append_only_witness :
  exists users more_users msgs more_msgs,
    directory (after alice_wrote) = Some users
    /\ directory (snd (continue bob_reads (after alice_wrote)))
       = Some (users ++ more_users)
    /\ message_log (after alice_wrote) = Some msgs
    /\ message_log (snd (continue bob_reads (after alice_wrote)))
       = Some (msgs ++ more_msgs).
Proof.
  apply (store_append_only toLowerCase_latin1 (history_of alice_wrote) (after alice_wrote)
           bob_reads (fst (continue bob_reads (after alice_wrote)))).
  - apply alice_wrote_reachable.
  - vm_compute. reflexivity.
Defined.

Lemma messages_reference_users_witness :
  exists users msgs,
    directory (after alice_wrote) = Some users
    /\ message_log (after alice_wrote) = Some msgs
    /\ Forall (fun m => In (from m) (map username users)
                        /\ In (to m) (map username users)
                        /\ text m <> []) msgs
    /\ (forall me, currentUser (after alice_wrote) = session_to_json me ->
                   In me (map username users)).
Proof.
  apply (messages_reference_users toLowerCase_latin1 (history_of alice_wrote)).
  apply alice_wrote_reachable.
Defined.

Lemma message_delivered_witness :
  exists l,
    renderMessages Date_ms_iso (snd (continue bob_reads (after alice_wrote)))
    = Some (Some l)
    /\ In (Message (js "alice") (js "Bob") (js "hello") stamp3) l.
Proof.
  apply (message_delivered toLowerCase_latin1 Date_ms_iso
           (history_of alice_wrote) (after alice_wrote)
           [Message (js "alice") (js "Bob") (js "hello") stamp3]
           (Message (js "alice") (js "Bob") (js "hello") stamp3)
           bob_reads (fst (continue bob_reads (after alice_wrote)))).
  - apply alice_wrote_reachable.
  - vm_compute. reflexivity.
  - left. reflexivity.
  - vm_compute. reflexivity.
  - left. split; vm_compute; reflexivity.
Defined.

Lemma own_conversation_empty_witness :
  currentUser (after bob_selects_himself) = session_to_json (js "Bob")
  /\ selectedPeer (after bob_selects_himself) = Some (js "Bob")
  /\ renderMessages Date_ms_iso (after bob_selects_himself) = Some (Some []).
Proof.
  assert (Hcu : currentUser (after bob_selects_himself) = session_to_json (js "Bob"))
    by (vm_compute; reflexivity).
  assert (Hpeer : selectedPeer (after bob_selects_himself) = Some (js "Bob"))
    by (vm_compute; reflexivity).
  split; [exact Hcu |]. split; [exact Hpeer |].
  apply (own_conversation_empty toLowerCase_latin1 Date_ms_iso
           (history_of bob_selects_himself) _ (js "Bob")); try assumption.
  apply demo_reachable. vm_compute. eexists. reflexivity.
Defined.

Lemma listed_recipient_accepted_witness :
  exists names,
    renderUsers (after alice_logged_in) = Some (names, [] :: names)
    /\ Forall (fun v => v <> []) names /\ NoDup names.
Proof.
  destruct (listed_recipient_accepted toLowerCase_latin1
              (history_of alice_logged_in) (after alice_logged_in)
              alice_logged_in_reachable) as (names & Hr & Hne & Hnd & _).
  exists names. auto.
Defined.
